(** * A shallow embedding of [src/txn_propagator.cpp] (CTxnPropagator)

    The propagator keeps a queue of new transactions ([mNewTxns]) guarded by
    [mNewTxnsMtx], a run frequency guarded by the same mutex, and an atomic
    running flag.  A background thread ([threadNewTxnHandler]) periodically
    drains the queue and announces it to every connected node;
    [removeTransactions] filters the queue against a list of transactions and
    asks every node to forget them.

    The sequential operations are written in a small state monad that also
    records the observable events of the code (lock acquisitions and
    releases, condition variable notifications, calls into the nodes and log
    lines).  The threads are then put together in a small-step interleaving
    semantics ([Sys.step]). *)

From Stdlib Require Import String List Arith NArith Bool Permutation Sorted Lia.
Import ListNotations.

(* ------------------------------------------------------------------------ *)
(** ** Data *)

(** [CInv]: an inventory item, a message type and a hash. *)
Record CInv := mkCInv { inv_type : N; inv_hash : N }.

Definition MSG_TX : N := 1.

(** A transaction, through the only member the code uses ([GetId]).
    [CTransactionRef] is a shared pointer to it. *)
Record CTransaction := mkCTransaction { GetId : N }.
Definition CTransactionRef := CTransaction.

(** [CTxnSendingDetails]: the inventory to send and the transaction. *)
Record CTxnSendingDetails := mkCTxnSendingDetails {
  getInv : CInv;
  getTxnRef : CTransactionRef }.

(** The transaction identity of a descriptor. *)
Definition txid (d : CTxnSendingDetails) : N := inv_hash (getInv d).

(** Modelled from the spec: the mempool ordering used by
    [CompareTxnSendingDetails] (declared outside [src/]).  Section 4.1: a
    total order over descriptors derived from the pool's current view (a
    key assigned by the pool to each transaction identity), ties broken by
    transaction identity.  A [CTxMemPool] is represented by that key. *)
Definition CTxMemPool := N -> N.

Definition CompareTxnSendingDetails (mempool : CTxMemPool)
    (a b : CTxnSendingDetails) : bool :=
  let ka := mempool (txid a) in
  let kb := mempool (txid b) in
  (ka <? kb)%N || ((ka =? kb)%N && (txid a <? txid b)%N).

(* ------------------------------------------------------------------------ *)
(** ** Standard algorithms *)

Section Algorithms.
Context {A : Type} (comp : A -> A -> bool).

(** [std::sort]: the result is a permutation of the input sorted by
    [comp]; we compute one such permutation by insertion. *)
Fixpoint insert_sorted (x : A) (l : list A) : list A :=
  match l with
  | [] => [x]
  | y :: l' => if comp y x then y :: insert_sorted x l' else x :: y :: l'
  end.

Fixpoint sort (l : list A) : list A :=
  match l with
  | [] => []
  | x :: l' => insert_sorted x (sort l')
  end.

(** [std::set_difference] on two ranges sorted by [comp], following the
    reference algorithm: while the first range is not exhausted, copy the
    rest of it if the second one is exhausted; if [comp x y] (x, y the two
    current elements) output x and advance the first range; otherwise
    advance the first range as well when [comp y x] is false, and always
    advance the second range. *)
Fixpoint set_difference (l1 l2 : list A) : list A :=
  match l1 with
  | [] => []
  | x :: l1' =>
      (fix go (l2 : list A) : list A :=
         match l2 with
         | [] => x :: l1'
         | y :: l2' =>
             if comp x y then x :: set_difference l1' l2
             else if comp y x then go l2'
             else set_difference l1' l2'
         end) l2
  end.

End Algorithms.

(* ------------------------------------------------------------------------ *)
(** ** Events and the state monad *)

Inductive Lock := NewTxnsMtx | MempoolCs.

Definition NodeId := N.

Inductive Event :=
| Acquire (l : Lock)
| Release (l : Lock)
| NotifyOne
| AddTxnsToInventory (node : NodeId) (txns : list CTxnSendingDetails)
| RemoveTxnsFromInventory (node : NodeId) (txns : list CTxnSendingDetails)
| LogPrint (fmt : string) (args : list nat).

(** The members of [CTxnPropagator] read and written by the operations. *)
Record CTxnPropagator := mkCTxnPropagator {
  mRunning : bool;
  mNewTxns : list CTxnSendingDetails;
  mRunFrequency : N }.

Definition set_mRunning (b : bool) (s : CTxnPropagator) : CTxnPropagator :=
  mkCTxnPropagator b (mNewTxns s) (mRunFrequency s).
Definition set_mNewTxns (q : list CTxnSendingDetails) (s : CTxnPropagator)
  : CTxnPropagator := mkCTxnPropagator (mRunning s) q (mRunFrequency s).
Definition set_mRunFrequency (f : N) (s : CTxnPropagator) : CTxnPropagator :=
  mkCTxnPropagator (mRunning s) (mNewTxns s) f.

Definition M (X : Type) : Type :=
  CTxnPropagator -> X * CTxnPropagator * list Event.

Definition ret {X} (x : X) : M X := fun s => (x, s, []).
Definition bind {X Y} (m : M X) (k : X -> M Y) : M Y :=
  fun s => let '(x, s1, e1) := m s in
           let '(y, s2, e2) := k x s1 in (y, s2, e1 ++ e2).

Notation "x <- m ;; k" := (bind m (fun x => k))
  (at level 61, m at next level, right associativity).
Notation "m ;; k" := (bind m (fun _ => k)) (at level 61, right associativity).

Definition get : M CTxnPropagator := fun s => (s, s, []).
Definition modify (f : CTxnPropagator -> CTxnPropagator) : M unit :=
  fun s => (tt, f s, []).
Definition emit (e : Event) : M unit := fun s => (tt, s, [e]).
Definition emit_all (es : list Event) : M unit := fun s => (tt, s, es).

(** A scoped lock ([std::unique_lock] or [LOCK]): acquired on entry,
    released when the scope ends. *)
Definition with_lock {X} (l : Lock) (m : M X) : M X :=
  emit (Acquire l) ;; x <- m ;; emit (Release l) ;; ret x.

(** [g_connman->ParallelForEachNode(f)] followed by waiting on every
    result: [f] is called once for every connected node. *)
Definition ParallelForEachNode (nodes : list NodeId) (f : NodeId -> Event)
  : M unit := emit_all (map f nodes).

Definition result {X} (m : M X) (s : CTxnPropagator) : X :=
  fst (fst (m s)).
Definition final {X} (m : M X) (s : CTxnPropagator) : CTxnPropagator :=
  snd (fst (m s)).
Definition events {X} (m : M X) (s : CTxnPropagator) : list Event :=
  snd (m s).

(* ------------------------------------------------------------------------ *)
(** ** The operations of [CTxnPropagator] *)

(** Modelled from the spec: the default of [-txnpropagationfreq] is
    declared in txn_propagator.h, which is not part of the sources here; the
    spec only says the default period is small (a few seconds at most).  The
    value below is a stand-in, and no result depends on it. *)
Definition DEFAULT_RUN_FREQUENCY_MILLIS : N := 1000.

(** Constructor: the run frequency comes from [-txnpropagationfreq] when
    given, else the default; the thread is launched (see [Sys.init]). *)
Definition construct (txnpropagationfreq : option N) : CTxnPropagator :=
  mkCTxnPropagator true []
    (match txnpropagationfreq with
     | Some f => f
     | None => DEFAULT_RUN_FREQUENCY_MILLIS
     end).

Definition getRunFrequency : M N :=
  with_lock NewTxnsMtx (s <- get ;; ret (mRunFrequency s)).

Definition setRunFrequency (freq : N) : M unit :=
  with_lock NewTxnsMtx
    (modify (set_mRunFrequency freq) ;;
     (* wake up the processing thread *)
     emit NotifyOne).

Definition getNewTxnQueueLength : M nat :=
  with_lock NewTxnsMtx (s <- get ;; ret (length (mNewTxns s))).

Definition newTransaction (txn : CTxnSendingDetails) : M unit :=
  with_lock NewTxnsMtx
    (s <- get ;; modify (set_mNewTxns (mNewTxns s ++ [txn]))).

(** The descriptor built for a transaction to remove:
    [CInv inv { MSG_TX, txn->GetId() }; txnDetails.emplace_back(inv, txn)]. *)
Definition details_of (txn : CTransactionRef) : CTxnSendingDetails :=
  mkCTxnSendingDetails (mkCInv MSG_TX (GetId txn)) txn.

Definition removeTransactions (mempool : CTxMemPool) (nodes : list NodeId)
    (txns : list CTransactionRef) : M unit :=
  let comp := CompareTxnSendingDetails mempool in
  emit (LogPrint "Purging %d transactions"%string [length txns]) ;;
  txnDetails <- with_lock MempoolCs (ret (sort comp (map details_of txns))) ;;
  (* our lock first, then the mempool lock *)
  with_lock NewTxnsMtx (with_lock MempoolCs
    (s <- get ;;
     modify (set_mNewTxns
       (set_difference comp (sort comp (mNewTxns s)) txnDetails)))) ;;
  with_lock MempoolCs
    (ParallelForEachNode nodes
       (fun node => RemoveTxnsFromInventory node txnDetails)).

(** Called with [mNewTxnsMtx] already held. *)
Definition processNewTransactions (nodes : list NodeId) : M unit :=
  with_lock MempoolCs
    (s <- get ;;
     ParallelForEachNode nodes
       (fun node => AddTxnsToInventory node (mNewTxns s))) ;;
  modify (set_mNewTxns []).

(** [mRunning.compare_exchange_strong(expected = true, false)]. *)
Definition compare_exchange_running : M bool :=
  s <- get ;;
  if mRunning s then modify (set_mRunning false) ;; ret true else ret false.

(* ------------------------------------------------------------------------ *)
(** ** The scheduler thread and the interleaving semantics *)

Module Sys.

(** Program points of [threadNewTxnHandler]:
    - [BStart]: thread entry, before the "starting" log line;
    - [BLoopHead]: about to evaluate [while(mRunning)];
    - [BAcquire]: about to take [mNewTxnsMtx] ([std::unique_lock]);
    - [BLocked]: holds the lock, about to call [mNewTxnsCV.wait_for];
    - [BWaiting d]: inside [wait_for] with timeout [d], lock released;
    - [BNotified]: woken (timeout, notification or spuriously), about to
      re-acquire the lock;
    - [BWoken]: holds the lock again, about to test
      [mRunning && !mNewTxns.empty()];
    - [BDispatching]: the test held, about to call [processNewTransactions];
    - [BExited]: the thread function has returned. *)
Inductive BgPC :=
| BStart | BLoopHead | BAcquire | BLocked | BWaiting (d : N) | BNotified
| BWoken | BDispatching | BExited.

(** Program points of a call to [shutdown]:
    [CIdle] (not yet called), [CWon] (the compare-and-swap succeeded),
    [CJoin] (notified, inside [mNewTxnsThread.join()]) and [CDone won]
    (returned; [won] records whether its compare-and-swap succeeded). *)
Inductive CallerPC := CIdle | CWon | CJoin | CDone (won : bool).

Record System := mkSystem {
  prop : CTxnPropagator;
  bg : BgPC;
  callers : nat -> CallerPC;
  stops : nat;                                   (* stop sequences run *)
  dispatches : list (list CTxnSendingDetails);   (* batches dispatched *)
  bg_trace : list Event }.                       (* events of the thread *)

Definition set_prop p st :=
  mkSystem p (bg st) (callers st) (stops st) (dispatches st) (bg_trace st).
Definition set_bg pc st :=
  mkSystem (prop st) pc (callers st) (stops st) (dispatches st) (bg_trace st).
Definition set_caller (i : nat) (c : CallerPC) st :=
  mkSystem (prop st) (bg st)
    (fun j => if Nat.eqb j i then c else callers st j)
    (stops st) (dispatches st) (bg_trace st).
Definition incr_stops st :=
  mkSystem (prop st) (bg st) (callers st) (Nat.succ (stops st)) (dispatches st)
    (bg_trace st).
Definition add_dispatch b st :=
  mkSystem (prop st) (bg st) (callers st) (stops st) (dispatches st ++ [b])
    (bg_trace st).

(** Run a fragment of the scheduler thread: its events go to [bg_trace]. *)
Definition run {X} (st : System) (m : M X) : X * System :=
  let '(x, p, evs) := m (prop st) in
  (x, mkSystem p (bg st) (callers st) (stops st) (dispatches st)
        (bg_trace st ++ evs)).

(** Run an operation of another thread. *)
Definition env_run {X} (st : System) (m : M X) : X * System :=
  (result m (prop st), set_prop (final m (prop st)) st).

(** The scheduler holds [mNewTxnsMtx] at these points. *)
Definition bg_holds_lock (pc : BgPC) : bool :=
  match pc with BLocked | BWoken | BDispatching => true | _ => false end.

(** [mNewTxnsCV.notify_one()]: the scheduler is the only waiter. *)
Definition notify (pc : BgPC) : BgPC :=
  match pc with BWaiting _ => BNotified | p => p end.

(** Fragments of [threadNewTxnHandler]. *)
Definition thread_starting : M unit :=
  emit (LogPrint "New transaction handling thread starting" []).
Definition thread_stopping : M unit :=
  emit (LogPrint "New transaction handling thread stopping" []).
Definition thread_exception : M unit :=
  emit (LogPrint "Unexpected exception in new transaction thread" []).
Definition loop_condition : M bool := s <- get ;; ret (mRunning s).
(** [wait_for(lock, mRunFrequency)]: releases the lock and waits for at most
    the current run frequency. *)
Definition wait_for_begin : M N :=
  s <- get ;; emit (Release NewTxnsMtx) ;; ret (mRunFrequency s).
Definition wait_for_end : M unit := emit (Acquire NewTxnsMtx).
Definition dispatch_test : M bool :=
  s <- get ;;
  if mRunning s && negb (match mNewTxns s with [] => true | _ => false end)
  then emit (LogPrint "Got %d new transactions" [length (mNewTxns s)]) ;;
       ret true
  else ret false.

(** One deterministic move of the scheduler thread. *)
Definition bg_next (nodes : list NodeId) (st : System) : System :=
  match bg st with
  | BStart => set_bg BLoopHead (snd (run st thread_starting))
  | BLoopHead =>
      let '(b, st1) := run st loop_condition in
      if b then set_bg BAcquire st1
      else set_bg BExited (snd (run st1 thread_stopping))
  | BAcquire => set_bg BLocked (snd (run st (emit (Acquire NewTxnsMtx))))
  | BLocked => let '(d, st1) := run st wait_for_begin in set_bg (BWaiting d) st1
  | BWaiting d => st
  | BNotified => set_bg BWoken (snd (run st wait_for_end))
  | BWoken =>
      let '(b, st1) := run st dispatch_test in
      if b then set_bg BDispatching st1
      else set_bg BLoopHead (snd (run st1 (emit (Release NewTxnsMtx))))
  | BDispatching =>
      let st1 := add_dispatch (mNewTxns (prop st)) st in
      let st2 := snd (run st1 (processNewTransactions nodes)) in
      set_bg BLoopHead (snd (run st2 (emit (Release NewTxnsMtx))))
  | BExited => st
  end.

(** An exception inside the [try] block: the locks held are released while
    unwinding, the [catch(...)] handler logs and the function returns. *)
Definition bg_throw (st : System) : System :=
  let st1 := if bg_holds_lock (bg st)
            then snd (run st (emit (Release NewTxnsMtx))) else st in
  set_bg BExited (snd (run st1 thread_exception)).

(** An exception inside [processNewTransactions], raised after
    [LOCK(mempool.cs)] once the first [k] nodes have been given the batch
    (a failing [ParallelForEachNode] or a failing wait on its results): the
    [LOCK] guard releases [mempool.cs] while unwinding, then the
    [std::unique_lock] releases [mNewTxnsMtx], and the [catch(...)] handler
    logs; the queue is not cleared. *)
Definition bg_throw_dispatch (nodes : list NodeId) (k : nat) (st : System)
  : System :=
  bg_throw (snd (run st
    (emit (Acquire MempoolCs) ;;
     emit_all (map (fun node => AddTxnsToInventory node (mNewTxns (prop st)))
                   (firstn k nodes)) ;;
     emit (Release MempoolCs)))).

Definition in_try (pc : BgPC) : bool :=
  match pc with BExited => false | _ => true end.

(** [shutdown()] called by caller [i]: the compare-and-swap of [mRunning]
    from true to false; only the winner goes on to the stop sequence. *)
Definition shutdown_cas (i : nat) (st : System) : System :=
  let '(won, st1) := env_run st compare_exchange_running in
  set_caller i (if won then CWon else CDone false) st1.

(** The winner's stop sequence, first part: notify the condition variable
    under [mNewTxnsMtx] (one stop sequence more); [mNewTxnsThread.join()]
    follows ([step_shutdown_join]). *)
Definition shutdown_notify (i : nat) (st : System) : System :=
  set_caller i CJoin
    (incr_stops (set_bg (notify (bg st))
       (snd (env_run st (with_lock NewTxnsMtx (emit NotifyOne)))))).

Inductive step : System -> System -> Prop :=
| step_bg nodes st : step st (bg_next nodes st)
| step_wakeup st d :
    bg st = BWaiting d -> step st (set_bg BNotified st)
| step_throw st :
    in_try (bg st) = true -> step st (bg_throw st)
| step_throw_dispatch st nodes k :
    bg st = BDispatching -> step st (bg_throw_dispatch nodes k st)
| step_newTransaction st txn :
    bg_holds_lock (bg st) = false ->
    step st (snd (env_run st (newTransaction txn)))
| step_removeTransactions st mempool nodes txns :
    bg_holds_lock (bg st) = false ->
    step st (snd (env_run st (removeTransactions mempool nodes txns)))
| step_setRunFrequency st freq :
    bg_holds_lock (bg st) = false ->
    step st (set_bg (notify (bg st)) (snd (env_run st (setRunFrequency freq))))
| step_shutdown_cas st i :
    callers st i = CIdle -> step st (shutdown_cas i st)
| step_shutdown_notify st i :
    callers st i = CWon -> bg_holds_lock (bg st) = false ->
    step st (shutdown_notify i st)
| step_shutdown_join st i :
    callers st i = CJoin -> bg st = BExited ->
    step st (set_caller i (CDone true) st).

(** The object right after construction: the thread has been launched. *)
Definition init (txnpropagationfreq : option N) : System :=
  mkSystem (construct txnpropagationfreq) BStart (fun _ => CIdle) 0 [] [].

Inductive reachable (arg : option N) : System -> Prop :=
| reach_init : reachable arg (init arg)
| reach_step st st' : reachable arg st -> step st st' -> reachable arg st'.

(** Executions from a given state. *)
Inductive steps : System -> System -> Prop :=
| steps_refl st : steps st st
| steps_cons st st1 st2 : step st st1 -> steps st1 st2 -> steps st st2.

End Sys.

(* ------------------------------------------------------------------------ *)
(** ** Helpers for the statements *)

(** Whether the identity [i] is among the identities of the descriptors [l]. *)
Definition mem_id (i : N) (l : list CTxnSendingDetails) : bool :=
  existsb (fun y => N.eqb (txid y) i) l.

(** Whether the identity [i] is among the identities of the transactions
    [txns]. *)
Definition named_by (txns : list CTransactionRef) (i : N) : bool :=
  existsb (fun t => N.eqb (GetId t) i) txns.

(** Calls into the nodes among the events. *)
Definition is_node_call (e : Event) : bool :=
  match e with
  | AddTxnsToInventory _ _ | RemoveTxnsFromInventory _ _ => true
  | _ => false
  end.
Definition node_calls (evs : list Event) : list Event := filter is_node_call evs.

(** Submitting the descriptors [txns] one after the other. *)
Definition submit_all (txns : list CTxnSendingDetails) (s : CTxnPropagator)
  : CTxnPropagator :=
  fold_left (fun s txn => final (newTransaction txn) s) txns s.

(** Lock discipline.  The state counts the holds of [mNewTxnsMtx] (a plain
    [std::mutex]) and of [mempool.cs] (a recursive mutex).  Taking
    [mNewTxnsMtx] while [mempool.cs] is held, taking it twice, or releasing a
    lock not held is a violation ([None]). *)
Definition lock_step (held : nat * nat) (e : Event) : option (nat * nat) :=
  let '(q, p) := held in
  match e with
  | Acquire NewTxnsMtx => if Nat.eqb p 0 && Nat.eqb q 0 then Some (1, p) else None
  | Acquire MempoolCs => Some (q, S p)
  | Release NewTxnsMtx => if Nat.eqb q 1 then Some (0, p) else None
  | Release MempoolCs => if Nat.eqb p 0 then None else Some (q, p - 1)
  | _ => Some held
  end.

Fixpoint lock_run (held : nat * nat) (evs : list Event) : option (nat * nat) :=
  match evs with
  | [] => Some held
  | e :: evs' =>
      match lock_step held e with
      | Some h => lock_run h evs'
      | None => None
      end
  end.

(** A code path that starts and ends with no lock held. *)
Definition lock_order_ok (evs : list Event) : bool :=
  match lock_run (0, 0) evs with Some (0, 0) => true | _ => false end.

(** Callers of [shutdown] whose compare-and-swap succeeded, and those that
    have run the stop sequence. *)
Definition won (c : Sys.CallerPC) : bool :=
  match c with Sys.CWon | Sys.CJoin | Sys.CDone true => true | _ => false end.
Definition notified (c : Sys.CallerPC) : bool :=
  match c with Sys.CJoin | Sys.CDone true => true | _ => false end.

(** Sequences of operations on the queue, run one after the other. *)
Inductive Op :=
| OpSubmit (txn : CTxnSendingDetails)
| OpRetract (mempool : CTxMemPool) (nodes : list NodeId)
    (txns : list CTransactionRef)
| OpDispatch (nodes : list NodeId).

Definition exec_op (s : CTxnPropagator) (op : Op) : CTxnPropagator :=
  match op with
  | OpSubmit txn => final (newTransaction txn) s
  | OpRetract mempool nodes txns => final (removeTransactions mempool nodes txns) s
  | OpDispatch nodes => final (processNewTransactions nodes) s
  end.

Definition exec_ops (s : CTxnPropagator) (ops : list Op) : CTxnPropagator :=
  fold_left exec_op ops s.

(** Every submission in [ops] is of an identity not pending at that time. *)
Fixpoint fresh_submits (s : CTxnPropagator) (ops : list Op) : Prop :=
  match ops with
  | [] => True
  | op :: ops' =>
      match op with
      | OpSubmit txn => ~ In (txid txn) (map txid (mNewTxns s))
      | _ => True
      end /\ fresh_submits (exec_op s op) ops'
  end.

(** One move of the scheduler thread on its own: a [wait_for] that times
    out, or its next deterministic move. *)
Definition thread_move (nodes : list NodeId) (st : Sys.System) : Sys.System :=
  match Sys.bg st with
  | Sys.BWaiting _ => Sys.set_bg Sys.BNotified st
  | _ => Sys.bg_next nodes st
  end.

Fixpoint thread_moves (nodes : list NodeId) (n : nat) (st : Sys.System)
  : Sys.System :=
  match n with
  | O => st
  | Datatypes.S n' => thread_moves nodes n' (thread_move nodes st)
  end.

(** Moves of the thread left before it exits, once [mRunning] is false. *)
Definition exit_distance (pc : Sys.BgPC) : nat :=
  match pc with
  | Sys.BStart => 2 | Sys.BLoopHead => 1 | Sys.BAcquire => 6
  | Sys.BLocked => 5 | Sys.BWaiting _ => 4 | Sys.BNotified => 3
  | Sys.BWoken => 2 | Sys.BDispatching => 2 | Sys.BExited => 0
  end.

(** A sample transaction. *)
Definition tx5 : CTransactionRef := mkCTransaction 5.

(** Sample states of the object built with [-txnpropagationfreq] 1000: the
    scheduler waiting on its condition variable; one transaction submitted
    before the thread ran; the scheduler past its dispatch test with that
    transaction; [shutdown]'s compare-and-swap between that test and the
    dispatch; and [shutdown]'s compare-and-swap while the thread, woken, is
    about to re-test. *)
Definition sample_waiting : Sys.System := thread_moves [] 4 (Sys.init (Some 1000%N)).
Definition sample_submitted : Sys.System :=
  snd (Sys.env_run (Sys.init (Some 1000%N)) (newTransaction (details_of tx5))).
Definition sample_dispatching : Sys.System := thread_moves [] 7 sample_submitted.
Definition sample_stop_in_dispatch : Sys.System :=
  Sys.shutdown_cas 0 sample_dispatching.
Definition sample_woken_stopped : Sys.System :=
  Sys.shutdown_cas 0 (thread_moves [] 6 sample_submitted).
(** A completed [shutdown] by caller 0 (compare-and-swap, notify, the
    thread's exit, join) followed by a late call of caller 1. *)
Definition sample_stopped : Sys.System :=
  Sys.set_caller 0 (Sys.CDone true)
    (Sys.bg_next [] (Sys.bg_next []
       (Sys.shutdown_notify 0 (Sys.shutdown_cas 0 (Sys.init (Some 1000%N)))))).
Definition sample_stopped_late : Sys.System := Sys.shutdown_cas 1 sample_stopped.
(** The submitted transaction retracted again before the thread ran. *)
Definition sample_retracted : Sys.System :=
  snd (Sys.env_run sample_submitted
         (removeTransactions (fun _ => 0%N) [1%N] [tx5])).

(* ======================================================================== *)
(** * Proofs *)

(** ** The comparator *)

Section Comparator.
Variable mempool : CTxMemPool.
Local Abbreviation cmp := (CompareTxnSendingDetails mempool).

Lemma cmp_true a b :
  cmp a b = true <->
  (mempool (txid a) < mempool (txid b) \/
   mempool (txid a) = mempool (txid b) /\ txid a < txid b)%N.
Proof.
  unfold CompareTxnSendingDetails.
  rewrite orb_true_iff, andb_true_iff, N.ltb_lt, N.eqb_eq, N.ltb_lt.
  tauto.
Qed.

Lemma cmp_false a b :
  cmp a b = false <->
  ~ (mempool (txid a) < mempool (txid b) \/
     mempool (txid a) = mempool (txid b) /\ txid a < txid b)%N.
Proof. rewrite <- cmp_true. destruct (cmp a b); intuition congruence. Qed.

Ltac cmp_lia :=
  repeat match goal with
  | H : cmp _ _ = true |- _ => apply cmp_true in H
  | H : cmp _ _ = false |- _ => apply cmp_false in H
  | |- cmp _ _ = true => apply cmp_true
  | |- cmp _ _ = false => apply cmp_false
  end; lia.

Lemma cmp_same_id a b : txid a = txid b -> cmp a b = false.
Proof. intros H. apply cmp_false. rewrite H. lia. Qed.

Lemma cmp_true_id a b : cmp a b = true -> txid a <> txid b.
Proof. intros H E. rewrite cmp_same_id in H by exact E. discriminate. Qed.

Lemma cmp_asym a b : cmp a b = true -> cmp b a = false.
Proof. intros. cmp_lia. Qed.

Lemma cmp_trans a b c : cmp a b = true -> cmp b c = true -> cmp a c = true.
Proof. intros. cmp_lia. Qed.

(** Negative transitivity: "not greater" is transitive. *)
Lemma cmp_ntrans a b c : cmp a b = false -> cmp b c = false -> cmp a c = false.
Proof. intros. cmp_lia. Qed.

Lemma cmp_total a b : txid a <> txid b -> cmp a b = true \/ cmp b a = true.
Proof.
  intros H. destruct (cmp a b) eqn:E1; [now left|].
  destruct (cmp b a) eqn:E2; [now right|]. cmp_lia.
Qed.

Lemma cmp_mixed a b c : cmp a b = true -> cmp c b = false -> cmp a c = true.
Proof. intros. cmp_lia. Qed.

Lemma cmp_mixed' a b c : cmp b a = false -> cmp b c = true -> cmp a c = true.
Proof. intros. cmp_lia. Qed.

(** [a] is not after [b]. *)
Definition not_after (a b : CTxnSendingDetails) : Prop := cmp b a = false.
Definition before (a b : CTxnSendingDetails) : Prop := cmp a b = true.

Lemma insert_sorted_perm x l : Permutation (insert_sorted cmp x l) (x :: l).
Proof.
  induction l as [|y l IH]; simpl; [reflexivity|].
  destruct (cmp y x); [|reflexivity].
  rewrite IH. apply perm_swap.
Qed.

Lemma sort_perm l : Permutation (sort cmp l) l.
Proof.
  induction l as [|x l IH]; simpl; [reflexivity|].
  rewrite insert_sorted_perm. now apply perm_skip.
Qed.

Lemma insert_sorted_hd z x l :
  HdRel not_after z l -> not_after z x -> HdRel not_after z (insert_sorted cmp x l).
Proof.
  intros Hl Hx. destruct l as [|y l]; simpl.
  - now constructor.
  - destruct (cmp y x); constructor; [now inversion Hl | exact Hx].
Qed.

Lemma insert_sorted_sorted x l :
  Sorted not_after l -> Sorted not_after (insert_sorted cmp x l).
Proof.
  induction l as [|y l IH]; simpl; intros Hs.
  - now repeat constructor.
  - destruct (cmp y x) eqn:E.
    + inversion Hs; subst. constructor; [now apply IH|].
      apply insert_sorted_hd; [assumption|]. unfold not_after. now apply cmp_asym.
    + constructor; [exact Hs|]. constructor. exact E.
Qed.

Lemma sort_sorted l : Sorted not_after (sort cmp l).
Proof.
  induction l as [|x l IH]; simpl; [constructor|].
  now apply insert_sorted_sorted.
Qed.

Lemma sort_strongly_sorted l : StronglySorted not_after (sort cmp l).
Proof.
  apply Sorted_StronglySorted; [|apply sort_sorted].
  intros a b c H1 H2. unfold not_after in *. eapply cmp_ntrans; eauto.
Qed.

Lemma strict_of_nodup l :
  StronglySorted not_after l -> NoDup (map txid l) -> StronglySorted before l.
Proof.
  induction 1 as [|a l Hs IH Hf]; simpl; intros Hn; constructor.
  - inversion Hn; subst. now apply IH.
  - inversion Hn as [|? ? Hnin Hn']; subst.
    rewrite Forall_forall in *. intros z Hz. specialize (Hf z Hz).
    unfold not_after, before in *.
    destruct (cmp_total a z) as [H|H]; [|exact H|].
    + intros E. apply Hnin. rewrite E. now apply in_map.
    + rewrite H in Hf. discriminate.
Qed.

Lemma sort_strict l : NoDup (map txid l) -> StronglySorted before (sort cmp l).
Proof.
  intros Hn. apply strict_of_nodup; [apply sort_strongly_sorted|].
  eapply Permutation_NoDup; [|exact Hn].
  apply Permutation_map. symmetry. apply sort_perm.
Qed.

End Comparator.

(** ** [std::set_difference] and [removeTransactions] *)

Lemma set_difference_cons_cons {A} (comp : A -> A -> bool) x l1 y l2 :
  set_difference comp (x :: l1) (y :: l2) =
  if comp x y then x :: set_difference comp l1 (y :: l2)
  else if comp y x then set_difference comp (x :: l1) l2
  else set_difference comp l1 l2.
Proof. reflexivity. Qed.

Lemma set_difference_nil_r {A} (comp : A -> A -> bool) l :
  set_difference comp l [] = l.
Proof. destruct l; reflexivity. Qed.

Lemma filter_all_true {A} (f : A -> bool) l :
  (forall x, In x l -> f x = true) -> filter f l = l.
Proof.
  induction l as [|x l IH]; simpl; intros H; [reflexivity|].
  rewrite H by now left. f_equal. apply IH. intros; apply H; now right.
Qed.

Lemma mem_id_false i l :
  mem_id i l = false <-> (forall z, In z l -> txid z <> i).
Proof.
  unfold mem_id. rewrite <- not_true_iff_false, existsb_exists.
  split.
  - intros H z Hz E. apply H. exists z. split; [exact Hz|]. now apply N.eqb_eq.
  - intros H [z [Hz E]]. apply N.eqb_eq in E. exact (H z Hz E).
Qed.

Lemma mem_id_cons i y l : mem_id i (y :: l) = (N.eqb (txid y) i || mem_id i l).
Proof. reflexivity. Qed.

Lemma set_difference_filter mempool l1 l2 :
  StronglySorted (before mempool) l1 ->
  StronglySorted (not_after mempool) l2 ->
  set_difference (CompareTxnSendingDetails mempool) l1 l2 =
  filter (fun x => negb (mem_id (txid x) l2)) l1.
Proof.
  revert l2. induction l1 as [|x l1 IH]; intros l2 H1 H2; [reflexivity|].
  inversion H1 as [|? ? Hs1 Hf1]; subst. rewrite Forall_forall in Hf1.
  revert H2. induction l2 as [|y l2 IH2]; intros H2.
  - rewrite set_difference_nil_r. symmetry. apply filter_all_true. reflexivity.
  - inversion H2 as [|? ? Hs2 Hf2]; subst. rewrite Forall_forall in Hf2.
    rewrite set_difference_cons_cons.
    destruct (CompareTxnSendingDetails mempool x y) eqn:Exy.
    + rewrite IH by assumption. cbn [filter].
      replace (mem_id (txid x) (y :: l2)) with false; [reflexivity|].
      symmetry. apply mem_id_false. intros z [Hy|Hz].
      * subst z. intros E. apply (cmp_true_id mempool x y); auto.
      * intros E. apply (cmp_true_id mempool x z); [|auto].
        eapply cmp_mixed; [exact Exy|]. apply Hf2, Hz.
    + destruct (CompareTxnSendingDetails mempool y x) eqn:Eyx.
      * rewrite IH2 by assumption. apply filter_ext_in.
        intros z Hz. rewrite mem_id_cons.
        assert (Hyz : CompareTxnSendingDetails mempool y z = true).
        { destruct Hz as [Hx|Hz]; [subst z; exact Eyx|].
          eapply cmp_trans; [exact Eyx|]. apply Hf1, Hz. }
        apply cmp_true_id in Hyz. apply N.eqb_neq in Hyz. now rewrite Hyz.
      * assert (Exy' : txid x = txid y).
        { destruct (N.eq_dec (txid x) (txid y)) as [E|E]; [exact E|].
          destruct (cmp_total mempool x y E); congruence. }
        rewrite IH by assumption. cbn [filter].
        rewrite mem_id_cons, Exy', N.eqb_refl. simpl.
        apply filter_ext_in. intros z Hz.
        assert (Hxz : txid x <> txid z)
          by (apply (cmp_true_id mempool); apply Hf1, Hz).
        rewrite Exy' in Hxz. apply N.eqb_neq in Hxz. now rewrite Hxz.
Qed.

Lemma mem_id_perm i l l' : Permutation l l' -> mem_id i l = mem_id i l'.
Proof.
  intros HP. destruct (mem_id i l) eqn:E; symmetry.
  - unfold mem_id in *. apply existsb_exists in E as [z [Hz Ez]].
    apply existsb_exists. exists z. split; [|exact Ez].
    eapply Permutation_in; eauto.
  - apply mem_id_false. intros z Hz. apply mem_id_false with (z := z) in E;
      [exact E|]. eapply Permutation_in; [symmetry; exact HP|exact Hz].
Qed.

Lemma mem_id_details i txns : mem_id i (map details_of txns) = named_by txns i.
Proof. induction txns as [|t txns IH]; simpl; [reflexivity|]. now rewrite IH. Qed.

Lemma removeTransactions_final mempool nodes txns s :
  final (removeTransactions mempool nodes txns) s =
  set_mNewTxns
    (set_difference (CompareTxnSendingDetails mempool)
       (sort (CompareTxnSendingDetails mempool) (mNewTxns s))
       (sort (CompareTxnSendingDetails mempool) (map details_of txns))) s.
Proof. reflexivity. Qed.

Lemma removeTransactions_queue mempool nodes txns s :
  NoDup (map txid (mNewTxns s)) ->
  mNewTxns (final (removeTransactions mempool nodes txns) s) =
  filter (fun d => negb (named_by txns (txid d)))
    (sort (CompareTxnSendingDetails mempool) (mNewTxns s)).
Proof.
  intros Hn. rewrite removeTransactions_final. simpl.
  rewrite set_difference_filter.
  - apply filter_ext. intros d. f_equal.
    rewrite (mem_id_perm _ _ (map details_of txns)) by apply sort_perm.
    apply mem_id_details.
  - now apply sort_strict.
  - apply sort_strongly_sorted.
Qed.

Lemma getNewTxnQueueLength_result s :
  result getNewTxnQueueLength s = length (mNewTxns s).
Proof. reflexivity. Qed.

Lemma filter_perm {A} (f : A -> bool) l l' :
  Permutation l l' -> Permutation (filter f l) (filter f l').
Proof.
  induction 1; simpl.
  - constructor.
  - destruct (f x); auto.
  - destruct (f x), (f y); auto using perm_swap, Permutation_refl.
  - eauto using Permutation_trans.
Qed.

Lemma filter_length_split {A} (f : A -> bool) l :
  length (filter f l) + length (filter (fun x => negb (f x)) l) = length l.
Proof.
  induction l as [|x l IH]; simpl; [reflexivity|].
  destruct (f x); simpl; lia.
Qed.

Lemma strongly_sorted_perm_eq mempool l1 l2 :
  StronglySorted (before mempool) l1 -> StronglySorted (before mempool) l2 ->
  Permutation l1 l2 -> l1 = l2.
Proof.
  revert l2. induction l1 as [|x l1 IH]; intros l2 H1 H2 HP.
  - symmetry. now apply Permutation_nil.
  - destruct l2 as [|y l2]; [apply Permutation_sym, Permutation_nil in HP; discriminate|].
    inversion H1 as [|? ? Hs1 Hf1]; inversion H2 as [|? ? Hs2 Hf2]; subst.
    rewrite Forall_forall in Hf1, Hf2.
    assert (x = y).
    { destruct (Permutation_in x HP (or_introl eq_refl)) as [E|Hx]; [now symmetry|].
      destruct (Permutation_in y (Permutation_sym HP) (or_introl eq_refl))
        as [E|Hy]; [exact E|].
      specialize (Hf1 y Hy). specialize (Hf2 x Hx). unfold before in *.
      apply cmp_asym in Hf1. congruence. }
    subst y. f_equal. apply IH; auto. eapply Permutation_cons_inv; exact HP.
Qed.

Lemma named_by_perm txns txns' i :
  Permutation txns txns' -> named_by txns i = named_by txns' i.
Proof.
  intros HP. rewrite <- !mem_id_details. apply mem_id_perm.
  now apply Permutation_map.
Qed.

(** C1 as stated fails when the pending queue holds the same transaction
    twice (which [newTransaction] allows): [std::set_difference] removes one
    occurrence per descriptor of the removal list. *)

(** ** C1 *)

(** C1 (counterexample): removing transaction 5 from the queue [[5; 5]]
    leaves one copy of it, although the claim requires every descriptor of
    the queue whose identity is named for removal to be gone. *)
Lemma removeTransactions_duplicate_survives :
  ~ (forall mempool nodes txns s,
       Permutation (mNewTxns (final (removeTransactions mempool nodes txns) s))
         (filter (fun d => negb (named_by txns (txid d))) (mNewTxns s))).
Proof.
  intros H.
  specialize (H (fun _ => 0%N) [] [tx5]
                (mkCTxnPropagator true [details_of tx5; details_of tx5] 1000)).
  apply Permutation_length in H. vm_compute in H. discriminate.
Qed.

(** C1 (amended): on a queue without duplicate identities,
    [removeTransactions txns] keeps exactly the descriptors whose identity is
    not named by [txns] (sorted by the comparator, so the result does not
    depend on the order of either input); the queue length afterwards is the
    old length minus the number of queued descriptors named by [txns]; and
    naming only absent identities leaves the queue's membership unchanged. *)
Theorem removeTransactions_retract mempool nodes txns s :
  NoDup (map txid (mNewTxns s)) ->
  let s' := final (removeTransactions mempool nodes txns) s in
  Permutation (mNewTxns s')
    (filter (fun d => negb (named_by txns (txid d))) (mNewTxns s))
  /\ (forall q' txns', Permutation q' (mNewTxns s) -> Permutation txns' txns ->
        mNewTxns (final (removeTransactions mempool nodes txns')
                    (set_mNewTxns q' s)) = mNewTxns s')
  /\ result getNewTxnQueueLength s' =
     length (mNewTxns s) -
     length (filter (fun d => named_by txns (txid d)) (mNewTxns s))
  /\ ((forall t, In t txns -> ~ In (GetId t) (map txid (mNewTxns s))) ->
      Permutation (mNewTxns s') (mNewTxns s)).
Proof.
  intros Hn s'.
  assert (Hq : mNewTxns s' = filter (fun d => negb (named_by txns (txid d)))
                 (sort (CompareTxnSendingDetails mempool) (mNewTxns s)))
    by (apply removeTransactions_queue, Hn).
  assert (Hp : Permutation (mNewTxns s')
                 (filter (fun d => negb (named_by txns (txid d))) (mNewTxns s)))
    by (rewrite Hq; apply filter_perm, sort_perm).
  split; [exact Hp|]. split; [|split].
  - intros q' txns' Hq' Ht'.
    assert (Hn' : NoDup (map txid q')).
    { eapply Permutation_NoDup; [|exact Hn].
      apply Permutation_map. now symmetry. }
    rewrite removeTransactions_queue by exact Hn'. rewrite Hq. simpl.
    rewrite (strongly_sorted_perm_eq mempool
               (sort (CompareTxnSendingDetails mempool) q')
               (sort (CompareTxnSendingDetails mempool) (mNewTxns s))).
    + apply filter_ext. intros d. f_equal. now apply named_by_perm.
    + now apply sort_strict.
    + now apply sort_strict.
    + rewrite !sort_perm. exact Hq'.
  - rewrite getNewTxnQueueLength_result, (Permutation_length Hp).
    pose proof (filter_length_split (fun d => named_by txns (txid d))
                  (mNewTxns s)) as E.
    cbv beta in E. lia.
  - intros Habs. rewrite Hp. rewrite filter_all_true; [reflexivity|].
    intros d Hd.
    apply negb_true_iff. unfold named_by.
    apply not_true_iff_false. rewrite existsb_exists.
    intros [t [Ht E]]. apply N.eqb_eq in E.
    apply (Habs t Ht). rewrite E. now apply in_map.
Qed.

Lemma removeTransactions_retract_witness :
  NoDup (map txid [details_of tx5; details_of (mkCTransaction 7)]) /\
  mNewTxns (final (removeTransactions (fun _ => 0%N) [1%N] [tx5])
              (mkCTxnPropagator true
                 [details_of tx5; details_of (mkCTransaction 7)] 1000))
  = [details_of (mkCTransaction 7)].
Proof.
  assert (Hn : NoDup (map txid [details_of tx5; details_of (mkCTransaction 7)])).
  { simpl. constructor; [simpl; intros [E|[]]; discriminate|].
    constructor; [intros []|constructor]. }
  split; [exact Hn|].
  destruct (removeTransactions_retract (fun _ => 0%N) [1%N] [tx5]
              (mkCTxnPropagator true
                 [details_of tx5; details_of (mkCTransaction 7)] 1000) Hn)
    as [Hp _].
  apply Permutation_length_1_inv. rewrite Hp. vm_compute. apply Permutation_refl.
Defined.

Lemma set_difference_incl {A} (comp : A -> A -> bool) l1 l2 :
  incl (set_difference comp l1 l2) l1.
Proof.
  revert l2. induction l1 as [|x l1 IH]; intros l2; [intros ? []|].
  induction l2 as [|y l2 IH2].
  - rewrite set_difference_nil_r. apply incl_refl.
  - rewrite set_difference_cons_cons.
    destruct (comp x y); [|destruct (comp y x)].
    + apply incl_cons; [now left|]. apply incl_tl, IH.
    + exact IH2.
    + apply incl_tl, IH.
Qed.

Lemma set_difference_sorted {A} (comp : A -> A -> bool) (R : A -> A -> Prop) l1 l2 :
  StronglySorted R l1 -> StronglySorted R (set_difference comp l1 l2).
Proof.
  revert l2. induction l1 as [|x l1 IH]; intros l2 H1; [constructor|].
  inversion H1 as [|? ? Hs1 Hf1]; subst.
  induction l2 as [|y l2 IH2].
  - now rewrite set_difference_nil_r.
  - rewrite set_difference_cons_cons.
    destruct (comp x y); [|destruct (comp y x)].
    + constructor; [now apply IH|].
      rewrite Forall_forall in *. intros z Hz.
      apply Hf1, (set_difference_incl comp l1 (y :: l2)), Hz.
    + exact IH2.
    + now apply IH.
Qed.

Lemma removeTransactions_events mempool nodes txns s :
  events (removeTransactions mempool nodes txns) s =
  [LogPrint "Purging %d transactions" [length txns];
   Acquire MempoolCs; Release MempoolCs;
   Acquire NewTxnsMtx; Acquire MempoolCs; Release MempoolCs; Release NewTxnsMtx;
   Acquire MempoolCs] ++
  map (fun node => RemoveTxnsFromInventory node
         (sort (CompareTxnSendingDetails mempool) (map details_of txns))) nodes ++
  [Release MempoolCs].
Proof. reflexivity. Qed.

Lemma node_calls_app evs evs' :
  node_calls (evs ++ evs') = node_calls evs ++ node_calls evs'.
Proof. apply filter_app. Qed.

Lemma node_calls_map {X} (f : X -> Event) l :
  (forall x, is_node_call (f x) = true) -> node_calls (map f l) = map f l.
Proof.
  intros H. induction l as [|x l IH]; simpl; [reflexivity|].
  unfold node_calls in *. simpl. rewrite H, IH. reflexivity.
Qed.

(** ** C10 *)

(** C10: [removeTransactions txns] calls [RemoveTxnsFromInventory] on every
    node with the whole sorted list built from [txns] (a permutation of all
    the descriptors of [txns], present in the queue or not), and the
    surviving queue is sorted by the comparator. *)
Theorem removeTransactions_forwards_whole_list mempool nodes txns s :
  let txnDetails :=
    sort (CompareTxnSendingDetails mempool) (map details_of txns) in
  node_calls (events (removeTransactions mempool nodes txns) s) =
    map (fun node => RemoveTxnsFromInventory node txnDetails) nodes
  /\ Permutation txnDetails (map details_of txns)
  /\ StronglySorted (not_after mempool) txnDetails
  /\ StronglySorted (not_after mempool)
       (mNewTxns (final (removeTransactions mempool nodes txns) s)).
Proof.
  intros txnDetails. split; [|split; [|split]].
  - rewrite removeTransactions_events, !node_calls_app, node_calls_map
      by reflexivity.
    cbn [node_calls filter is_node_call app]. now rewrite app_nil_r.
  - apply sort_perm.
  - apply sort_strongly_sorted.
  - rewrite removeTransactions_final. simpl.
    apply set_difference_sorted, sort_strongly_sorted.
Qed.

(** ** C3 *)

Lemma processNewTransactions_events nodes s :
  events (processNewTransactions nodes) s =
  [Acquire MempoolCs] ++
  map (fun node => AddTxnsToInventory node (mNewTxns s)) nodes ++
  [Release MempoolCs].
Proof. unfold events. simpl. now rewrite app_nil_r. Qed.

Lemma processNewTransactions_final nodes s :
  final (processNewTransactions nodes) s = set_mNewTxns [] s.
Proof. reflexivity. Qed.

(** C3: a dispatch cycle over any snapshot of nodes (the empty one
    included) returns normally, gives every node the whole queue through
    [AddTxnsToInventory], and leaves the queue empty; in the scheduler
    thread, the dispatch step records the whole queue as one batch, empties
    the queue and goes back to the loop head. *)
Theorem processNewTransactions_dispatch nodes s :
  node_calls (events (processNewTransactions nodes) s) =
    map (fun node => AddTxnsToInventory node (mNewTxns s)) nodes
  /\ mNewTxns (final (processNewTransactions nodes) s) = []
  /\ (forall st, Sys.bg st = Sys.BDispatching ->
        let st' := Sys.bg_next nodes st in
        mNewTxns (Sys.prop st') = []
        /\ Sys.dispatches st' = Sys.dispatches st ++ [mNewTxns (Sys.prop st)]
        /\ Sys.bg st' = Sys.BLoopHead).
Proof.
  split; [|split].
  - rewrite processNewTransactions_events, !node_calls_app, node_calls_map
      by reflexivity.
    cbn [node_calls filter is_node_call app]. now rewrite app_nil_r.
  - reflexivity.
  - intros st Hbg. unfold Sys.bg_next. rewrite Hbg. simpl.
    repeat split; reflexivity.
Qed.

(** ** C7 *)

Lemma submit_all_length txns s :
  length (mNewTxns (submit_all txns s)) = length (mNewTxns s) + length txns.
Proof.
  unfold submit_all. revert s.
  induction txns as [|txn txns IH]; intros s; simpl; [lia|].
  rewrite IH. simpl. rewrite length_app. simpl. lia.
Qed.

(** C7: [newTransaction] appends its descriptor at the end of the queue,
    touches nothing else, takes and releases the queue lock and notifies no
    one (the scheduler's state is unchanged); after any sequence of
    submissions on a freshly constructed propagator (with distinct
    identities or not), the queue length is the number of submissions. *)
Theorem newTransaction_appends :
  (forall txn s,
     mNewTxns (final (newTransaction txn) s) = mNewTxns s ++ [txn]
     /\ mRunning (final (newTransaction txn) s) = mRunning s
     /\ mRunFrequency (final (newTransaction txn) s) = mRunFrequency s
     /\ events (newTransaction txn) s = [Acquire NewTxnsMtx; Release NewTxnsMtx])
  /\ (forall arg txns,
        result getNewTxnQueueLength (submit_all txns (construct arg)) =
        length txns)
  /\ (forall st txn, Sys.bg (snd (Sys.env_run st (newTransaction txn))) = Sys.bg st).
Proof.
  split; [|split].
  - intros txn s. repeat split.
  - intros arg txns. rewrite getNewTxnQueueLength_result, submit_all_length.
    reflexivity.
  - reflexivity.
Qed.

(** ** Invariants of the interleaving semantics *)

Module SysFacts.
Import Sys.

Ltac sys_simpl :=
  simpl in *;
  repeat (match goal with
          | |- context [if ?a && _ then _ else _] => destruct a eqn:?
          | H : context [if ?a && _ then _ else _] |- _ => destruct a eqn:?
          | |- context [if ?b then _ else _] => destruct b eqn:?
          | H : context [if ?b then _ else _] |- _ => destruct b eqn:?
          | |- context [match ?l with [] => _ | _ :: _ => _ end] =>
              destruct l eqn:?
          | H : context [match ?l with [] => _ | _ :: _ => _ end] |- _ =>
              destruct l eqn:?
          end; simpl in *).

Ltac step_cases Hstep :=
  inversion Hstep; subst;
  unfold bg_next, bg_throw_dispatch, bg_throw, shutdown_cas, shutdown_notify, env_run, run,
    notify, dispatch_test, loop_condition, wait_for_begin, wait_for_end,
    thread_starting, thread_stopping, thread_exception,
    processNewTransactions, compare_exchange_running, newTransaction,
    removeTransactions, setRunFrequency, final, result, bind, get, ret, emit,
    modify, with_lock, emit_all, ParallelForEachNode in *.

(** While the scheduler waits, it waits for the current run frequency. *)
Lemma waiting_current_frequency arg st :
  reachable arg st ->
  forall d, bg st = BWaiting d -> d = mRunFrequency (prop st).
Proof.
  induction 1 as [|st st' Hr IH Hstep]; [intros d E; discriminate|].
  intros d Hd. step_cases Hstep; destruct (bg st) eqn:Eb; sys_simpl;
    try discriminate; try congruence; auto; apply IH; congruence.
Qed.

Lemma steps_reachable arg st st' :
  reachable arg st -> steps st st' -> reachable arg st'.
Proof.
  intros Hr Hs. induction Hs as [|st st1 st2 H1 H2 IH]; [exact Hr|].
  apply IH. eapply reach_step; eauto.
Qed.

(** While the scheduler is about to dispatch, the queue is not empty: the
    test passed and the queue lock has been held since. *)
Lemma dispatching_nonempty arg st :
  reachable arg st -> bg st = BDispatching -> mNewTxns (prop st) <> [].
Proof.
  induction 1 as [|st st' Hr IH Hstep]; [intros E; discriminate|].
  intros Hd. step_cases Hstep; destruct (bg st) eqn:Eb; sys_simpl;
    try discriminate; try congruence; try (intro; discriminate);
    apply IH; congruence.
Qed.

(** The scheduler enters the dispatch only from the test, when the test
    read a true running flag and a non-empty queue. *)
Lemma step_enter_dispatch st st' :
  step st st' -> bg st <> BDispatching -> bg st' = BDispatching ->
  bg st = BWoken /\ mRunning (prop st) = true /\ mNewTxns (prop st) <> [].
Proof.
  intros Hstep Hn Hd. step_cases Hstep; destruct (bg st) eqn:Eb; sys_simpl;
    try discriminate; try congruence; repeat split; try (intro; discriminate);
    congruence.
Qed.

(** Only the dispatch step records a batch, and the batch is the queue. *)
Lemma step_dispatches st st' :
  step st st' ->
  dispatches st' = dispatches st \/
  (bg st = BDispatching /\ dispatches st' = dispatches st ++ [mNewTxns (prop st)]).
Proof.
  intros Hstep. step_cases Hstep; destruct (bg st) eqn:Eb; sys_simpl;
    auto.
Qed.

(** Once the running flag is false and the scheduler is not past its test,
    it never dispatches again. *)
Lemma stopped_quiet st st' :
  step st st' -> mRunning (prop st) = false -> bg st <> BDispatching ->
  mRunning (prop st') = false /\ bg st' <> BDispatching /\
  dispatches st' = dispatches st.
Proof.
  intros Hstep Hr Hn. step_cases Hstep; destruct (bg st) eqn:Eb; sys_simpl;
    repeat split; try discriminate; try congruence.
Qed.

Lemma stopped_quiet_steps st st' :
  steps st st' -> mRunning (prop st) = false -> bg st <> BDispatching ->
  dispatches st' = dispatches st /\ bg st' <> BDispatching.
Proof.
  induction 1 as [|st st1 st2 H1 H2 IH]; intros Hr Hn; [split; auto|].
  destruct (stopped_quiet st st1 H1 Hr Hn) as [Hr1 [Hn1 Hd1]].
  destruct (IH Hr1 Hn1) as [Hd2 Hn2]. split; [congruence|exact Hn2].
Qed.

Lemma lock_run_app h a b :
  lock_run h (a ++ b) =
  match lock_run h a with Some h' => lock_run h' b | None => None end.
Proof.
  revert h. induction a as [|e a IH]; intros h; simpl; [reflexivity|].
  destruct (lock_step h e); [apply IH|reflexivity].
Qed.

Lemma lock_run_add h nodes b :
  lock_run h (map (fun node => AddTxnsToInventory node b) nodes) = Some h.
Proof.
  induction nodes as [|n nodes IH]; simpl; [reflexivity|].
  destruct h as [q p]. exact IH.
Qed.

Lemma lock_run_remove h nodes b :
  lock_run h (map (fun node => RemoveTxnsFromInventory node b) nodes) = Some h.
Proof.
  induction nodes as [|n nodes IH]; simpl; [reflexivity|].
  destruct h as [q p]. exact IH.
Qed.

(** The scheduler's own trace follows the lock discipline, and it holds the
    queue lock exactly at the points [bg_holds_lock] says. *)
Lemma bg_trace_locks arg st :
  reachable arg st ->
  lock_run (0, 0) (bg_trace st) =
  Some (if bg_holds_lock (bg st) then 1 else 0, 0).
Proof.
  induction 1 as [|st st' Hr IH Hstep]; [reflexivity|].
  step_cases Hstep; destruct (bg st) eqn:Eb; sys_simpl;
    rewrite ?lock_run_app, ?IH; simpl;
    rewrite ?lock_run_app, ?lock_run_add; simpl; try reflexivity;
    try discriminate; try (rewrite Eb in *; simpl in *; discriminate);
    exact IH.
Qed.

(** Once the thread has exited, it stays so and dispatches nothing. *)
Lemma exited_stable st st' :
  step st st' -> bg st = BExited ->
  bg st' = BExited /\ dispatches st' = dispatches st.
Proof.
  intros Hstep Hb. step_cases Hstep; destruct (bg st) eqn:Eb; sys_simpl;
    try discriminate; auto.
Qed.

(** Once the thread has exited, its trace does not grow. *)
Lemma exited_trace st st' :
  step st st' -> bg st = BExited ->
  bg st' = BExited /\ bg_trace st' = bg_trace st.
Proof.
  intros Hstep Hb. step_cases Hstep; destruct (bg st) eqn:Eb; sys_simpl;
    try discriminate; auto.
Qed.

Lemma exited_trace_steps st st' :
  steps st st' -> bg st = BExited -> bg_trace st' = bg_trace st.
Proof.
  induction 1 as [|st st1 st2 H1 H2 IH]; intros Hb; [auto|].
  destruct (exited_trace st st1 H1 Hb) as [Hb1 Ht1]. rewrite <- Ht1.
  exact (IH Hb1).
Qed.

Lemma exited_stable_steps st st' :
  steps st st' -> bg st = BExited ->
  bg st' = BExited /\ dispatches st' = dispatches st.
Proof.
  induction 1 as [|st st1 st2 H1 H2 IH]; intros Hb; [auto|].
  destruct (exited_stable st st1 H1 Hb) as [Hb1 Hd1].
  destruct (IH Hb1). split; congruence.
Qed.

Lemma steps_app st st1 st2 : steps st st1 -> steps st1 st2 -> steps st st2.
Proof.
  induction 1 as [|st st0 st1 H1 H2 IH]; intros H3; [exact H3|].
  econstructor; [exact H1|]. now apply IH.
Qed.

Lemma thread_move_step nodes st : step st (thread_move nodes st).
Proof.
  unfold thread_move. destruct (bg st) eqn:Eb;
    try (apply step_bg); eapply step_wakeup; exact Eb.
Qed.

Lemma thread_moves_steps nodes n st : steps st (thread_moves nodes n st).
Proof.
  revert st. induction n as [|n IH]; intros st; simpl; [constructor|].
  econstructor; [apply thread_move_step|apply IH].
Qed.

Lemma thread_moves_reachable arg nodes n st :
  reachable arg st -> reachable arg (thread_moves nodes n st).
Proof. intros Hr. eapply steps_reachable; [exact Hr|apply thread_moves_steps]. Qed.

(** A false running flag stays false. *)
Lemma step_stopped st st' :
  step st st' -> mRunning (prop st) = false -> mRunning (prop st') = false.
Proof.
  intros Hstep Hr. step_cases Hstep; destruct (bg st) eqn:Eb; sys_simpl;
    try congruence; auto.
Qed.

(** From the point past the dispatch test, a step either keeps the thread
    there (another thread's move, which cannot touch the locked queue), or
    leaves it, recording at most the queue as a batch. *)
Lemma step_from_dispatching st st' :
  step st st' -> bg st = BDispatching ->
  (bg st' = BDispatching /\ mNewTxns (prop st') = mNewTxns (prop st) /\
   dispatches st' = dispatches st)
  \/ (bg st' <> BDispatching /\
      (dispatches st' = dispatches st \/
       dispatches st' = dispatches st ++ [mNewTxns (prop st)])).
Proof.
  intros Hstep Hd. step_cases Hstep; destruct (bg st) eqn:Eb; sys_simpl;
    try discriminate; try (left; repeat split; congruence);
    right; split; try discriminate; auto.
Qed.

(** Once the running flag is false, at most one more batch is dispatched:
    the queue, if the thread is already past its dispatch test. *)
Lemma stopped_at_most_one st st' :
  steps st st' -> mRunning (prop st) = false ->
  dispatches st' = dispatches st \/
  (bg st = BDispatching /\ dispatches st' = dispatches st ++ [mNewTxns (prop st)]).
Proof.
  intros Hs Hr. destruct (bg st) eqn:Eb;
    try (left; apply (stopped_quiet_steps st st' Hs Hr); congruence).
  revert Hr Eb. induction Hs as [|st st1 st2 H1 H2 IH]; intros Hr Hd;
    [now left|].
  destruct (step_from_dispatching st st1 H1 Hd) as [[Hd1 [Q1 D1]]|[Hn1 D1]].
  - assert (Hr1 : mRunning (prop st1) = false) by now apply (step_stopped st).
    destruct (IH Hr1 Hd1) as [E|[_ E]]; [left; congruence|].
    right. split; [reflexivity|]. rewrite E, D1, Q1. reflexivity.
  - assert (Hr1 : mRunning (prop st1) = false) by now apply (step_stopped st).
    destruct (stopped_quiet_steps st1 st2 H2 Hr1 Hn1) as [E _].
    rewrite E. destruct D1 as [D1|D1]; [now left|now right].
Qed.

End SysFacts.

(** Reachability of the sample states. *)
Lemma sample_submitted_reachable : Sys.reachable (Some 1000%N) sample_submitted.
Proof.
  eapply Sys.reach_step; [apply Sys.reach_init|].
  apply Sys.step_newTransaction. reflexivity.
Qed.

Lemma sample_waiting_reachable : Sys.reachable (Some 1000%N) sample_waiting.
Proof. apply SysFacts.thread_moves_reachable, Sys.reach_init. Qed.

Lemma sample_dispatching_reachable : Sys.reachable (Some 1000%N) sample_dispatching.
Proof. apply SysFacts.thread_moves_reachable, sample_submitted_reachable. Qed.

Lemma sample_stop_in_dispatch_reachable :
  Sys.reachable (Some 1000%N) sample_stop_in_dispatch.
Proof.
  eapply Sys.reach_step; [apply sample_dispatching_reachable|].
  apply Sys.step_shutdown_cas. reflexivity.
Qed.

Lemma sample_woken_stopped_reachable : Sys.reachable (Some 1000%N) sample_woken_stopped.
Proof.
  eapply Sys.reach_step.
  - apply SysFacts.thread_moves_reachable, sample_submitted_reachable.
  - apply Sys.step_shutdown_cas. reflexivity.
Qed.

Lemma sample_stopped_reachable : Sys.reachable (Some 1000%N) sample_stopped.
Proof.
  assert (H1 : Sys.reachable (Some 1000%N) (Sys.shutdown_cas 0 (Sys.init (Some 1000%N))))
    by (eapply Sys.reach_step; [apply Sys.reach_init|];
        apply Sys.step_shutdown_cas; reflexivity).
  assert (H2 : Sys.reachable (Some 1000%N)
                 (Sys.shutdown_notify 0 (Sys.shutdown_cas 0 (Sys.init (Some 1000%N)))))
    by (eapply Sys.reach_step; [exact H1|];
        apply Sys.step_shutdown_notify; reflexivity).
  assert (H3 := Sys.reach_step _ _ _ H2 (Sys.step_bg [] _)).
  assert (H4 := Sys.reach_step _ _ _ H3 (Sys.step_bg [] _)).
  eapply Sys.reach_step; [exact H4|].
  apply Sys.step_shutdown_join; reflexivity.
Qed.

Lemma sample_stopped_late_reachable : Sys.reachable (Some 1000%N) sample_stopped_late.
Proof.
  eapply Sys.reach_step; [apply sample_stopped_reachable|].
  apply Sys.step_shutdown_cas. reflexivity.
Qed.

(** ** C5 *)

(** C5 refuted: a step that dispatches a batch may start from a state whose
    running flag is already false.  [shutdown]'s compare-and-swap does not
    take [mNewTxnsMtx], so it can clear the flag after the scheduler's test
    read it true and before [processNewTransactions] is called. *)
Lemma dispatch_after_stop_flag_cleared :
  ~ (forall arg st st', Sys.reachable arg st -> Sys.step st st' ->
       Sys.dispatches st' <> Sys.dispatches st ->
       mRunning (Sys.prop st) = true).
Proof.
  intros H.
  assert (E := H (Some 1000%N) sample_stop_in_dispatch
                 (Sys.bg_next [] sample_stop_in_dispatch)
                 sample_stop_in_dispatch_reachable (Sys.step_bg _ _)
                 ltac:(vm_compute; discriminate)).
  vm_compute in E. discriminate.
Qed.

(** C5 (amended): the scheduler dispatches only after its test, under the
    queue lock, read a true running flag and a non-empty queue (the queue
    cannot change in between: the lock is held), and the batch it records
    is that queue; once the running flag is false while the scheduler is
    not past its test, no dispatch ever happens again; once the flag is
    false at all, at most one more batch is dispatched, the non-empty queue
    whose test had already passed; and a wake-up after [shutdown] leads from
    the test to the loop exit without dispatching. *)
Theorem scheduler_dispatch_guard arg st :
  Sys.reachable arg st ->
  (Sys.bg st = Sys.BDispatching -> mNewTxns (Sys.prop st) <> [])
  /\ (forall st', Sys.step st st' -> Sys.bg st <> Sys.BDispatching ->
        Sys.bg st' = Sys.BDispatching ->
        Sys.bg st = Sys.BWoken /\ mRunning (Sys.prop st) = true /\
        mNewTxns (Sys.prop st) <> [])
  /\ (forall st', Sys.step st st' -> Sys.dispatches st' <> Sys.dispatches st ->
        Sys.bg st = Sys.BDispatching /\ mNewTxns (Sys.prop st) <> [] /\
        Sys.dispatches st' = Sys.dispatches st ++ [mNewTxns (Sys.prop st)])
  /\ (mRunning (Sys.prop st) = false -> Sys.bg st <> Sys.BDispatching ->
        forall st', Sys.steps st st' ->
        Sys.dispatches st' = Sys.dispatches st /\
        Sys.bg st' <> Sys.BDispatching)
  /\ (mRunning (Sys.prop st) = false ->
        forall st', Sys.steps st st' ->
        Sys.dispatches st' = Sys.dispatches st \/
        (Sys.bg st = Sys.BDispatching /\ mNewTxns (Sys.prop st) <> [] /\
         Sys.dispatches st' = Sys.dispatches st ++ [mNewTxns (Sys.prop st)]))
  /\ (forall nodes, mRunning (Sys.prop st) = false -> Sys.bg st = Sys.BWoken ->
        let st2 := Sys.bg_next nodes (Sys.bg_next nodes st) in
        Sys.bg st2 = Sys.BExited /\ Sys.dispatches st2 = Sys.dispatches st).
Proof.
  intros Hr. split; [|split; [|split; [|split; [|split]]]].
  - now apply SysFacts.dispatching_nonempty with arg.
  - intros st' Hs Hn Hd. now apply SysFacts.step_enter_dispatch with st'.
  - intros st' Hs Hne.
    destruct (SysFacts.step_dispatches st st' Hs) as [E|[Hb E]];
      [contradiction|].
    split; [exact Hb|]. split; [|exact E].
    now apply SysFacts.dispatching_nonempty with arg.
  - intros Hrun Hn st' Hs. now apply SysFacts.stopped_quiet_steps.
  - intros Hrun st' Hs.
    destruct (SysFacts.stopped_at_most_one st st' Hs Hrun) as [E|[Hb E]];
      [now left|right].
    split; [exact Hb|]. split; [|exact E].
    now apply SysFacts.dispatching_nonempty with arg.
  - intros nodes Hrun Hb. unfold Sys.bg_next, Sys.dispatch_test,
      Sys.loop_condition, Sys.run, bind, get, ret, emit.
    rewrite Hb. simpl. rewrite Hrun. simpl. rewrite Hrun. split; reflexivity.
Qed.

Lemma scheduler_dispatch_guard_witness :
  (Sys.bg sample_stop_in_dispatch = Sys.BDispatching /\
   mNewTxns (Sys.prop sample_stop_in_dispatch) <> [] /\
   Sys.dispatches (Sys.bg_next [] sample_stop_in_dispatch) =
     Sys.dispatches sample_stop_in_dispatch ++
       [mNewTxns (Sys.prop sample_stop_in_dispatch)]) /\
  (Sys.dispatches (thread_moves [] 6 sample_stop_in_dispatch) =
     Sys.dispatches sample_stop_in_dispatch \/
   (Sys.bg sample_stop_in_dispatch = Sys.BDispatching /\
    mNewTxns (Sys.prop sample_stop_in_dispatch) <> [] /\
    Sys.dispatches (thread_moves [] 6 sample_stop_in_dispatch) =
      Sys.dispatches sample_stop_in_dispatch ++
        [mNewTxns (Sys.prop sample_stop_in_dispatch)])) /\
  (Sys.bg (Sys.bg_next [] (Sys.bg_next [] sample_woken_stopped)) = Sys.BExited /\
   Sys.dispatches (Sys.bg_next [] (Sys.bg_next [] sample_woken_stopped)) =
     Sys.dispatches sample_woken_stopped).
Proof.
  destruct (scheduler_dispatch_guard (Some 1000%N) sample_stop_in_dispatch
              sample_stop_in_dispatch_reachable)
    as [_ [_ [H3 [_ [H5 _]]]]].
  destruct (scheduler_dispatch_guard (Some 1000%N) sample_woken_stopped
              sample_woken_stopped_reachable)
    as [_ [_ [_ [_ [_ H6]]]]].
  split; [|split].
  - apply H3; [apply Sys.step_bg|vm_compute; discriminate].
  - apply H5; [reflexivity|apply SysFacts.thread_moves_steps].
  - apply H6; reflexivity.
Defined.

(** ** C8 *)

(** C8: [setRunFrequency freq] stores [freq] under the queue lock and
    notifies the condition variable in the same critical section; the
    getter then returns [freq]; a wait the scheduler was in is ended (no
    wait with the old period goes on); and in every later state, a waiting
    scheduler waits for the run frequency current when it started waiting. *)
Theorem setRunFrequency_wakes arg st freq :
  Sys.reachable arg st -> Sys.bg_holds_lock (Sys.bg st) = false ->
  let st' := Sys.set_bg (Sys.notify (Sys.bg st))
               (snd (Sys.env_run st (setRunFrequency freq))) in
  Sys.step st st'
  /\ events (setRunFrequency freq) (Sys.prop st) =
       [Acquire NewTxnsMtx; NotifyOne; Release NewTxnsMtx]
  /\ mRunFrequency (Sys.prop st') = freq
  /\ result getRunFrequency (Sys.prop st') = freq
  /\ (forall d, Sys.bg st' <> Sys.BWaiting d)
  /\ (forall st'', Sys.steps st' st'' ->
        forall d, Sys.bg st'' = Sys.BWaiting d ->
        d = mRunFrequency (Sys.prop st'')).
Proof.
  intros Hr Hl st'.
  assert (Hs : Sys.step st st') by now apply Sys.step_setRunFrequency.
  split; [exact Hs|]. split; [reflexivity|]. split; [reflexivity|].
  split; [reflexivity|]. split.
  - intros d. unfold st', Sys.notify. destruct (Sys.bg st); discriminate.
  - intros st'' Hs''. apply SysFacts.waiting_current_frequency with arg.
    eapply SysFacts.steps_reachable; [|exact Hs''].
    eapply Sys.reach_step; eauto.
Qed.

Lemma setRunFrequency_wakes_witness :
  Sys.bg sample_waiting = Sys.BWaiting 1000 /\
  (forall d, Sys.bg (Sys.set_bg (Sys.notify (Sys.bg sample_waiting))
                (snd (Sys.env_run sample_waiting (setRunFrequency 250))))
             <> Sys.BWaiting d) /\
  result getRunFrequency
    (Sys.prop (Sys.set_bg (Sys.notify (Sys.bg sample_waiting))
       (snd (Sys.env_run sample_waiting (setRunFrequency 250))))) = 250%N /\
  Sys.bg (thread_moves [] 5 (Sys.set_bg (Sys.notify (Sys.bg sample_waiting))
            (snd (Sys.env_run sample_waiting (setRunFrequency 250)))))
    = Sys.BWaiting 250 /\
  250%N = mRunFrequency (Sys.prop
    (thread_moves [] 5 (Sys.set_bg (Sys.notify (Sys.bg sample_waiting))
       (snd (Sys.env_run sample_waiting (setRunFrequency 250)))))).
Proof.
  destruct (setRunFrequency_wakes (Some 1000%N) sample_waiting 250
              sample_waiting_reachable eq_refl)
    as [_ [_ [_ [Hget [Hwoken Hlater]]]]].
  split; [vm_compute; reflexivity|].
  split; [exact Hwoken|]. split; [exact Hget|].
  split; [vm_compute; reflexivity|].
  apply Hlater; [apply SysFacts.thread_moves_steps|vm_compute; reflexivity].
Defined.

(** ** C6 *)

(** C6: an exception raised anywhere inside the [try] block of
    [threadNewTxnHandler] is caught by its [catch(...)], whether it is raised
    between two program points or inside [processNewTransactions] after
    [LOCK(mempool.cs)] and part of the node calls: the locks held are
    released while unwinding ([mempool.cs] first, then [mNewTxnsMtx]), the
    handler logs it and the thread function returns (the thread is exited,
    which is a step of the semantics, not a failure leaving the thread);
    afterwards the thread stays exited, adds no event and never dispatches
    again, so the failing cycle is not retried. *)
Theorem scheduler_exception_caught arg st :
  Sys.reachable arg st ->
  (Sys.in_try (Sys.bg st) = true ->
   let st' := Sys.bg_throw st in
   Sys.step st st'
   /\ Sys.bg st' = Sys.BExited
   /\ Sys.bg_trace st' =
        Sys.bg_trace st ++
        (if Sys.bg_holds_lock (Sys.bg st) then [Release NewTxnsMtx] else []) ++
        [LogPrint "Unexpected exception in new transaction thread" []]
   /\ lock_run (0, 0) (Sys.bg_trace st') = Some (0, 0)
   /\ (forall st'', Sys.steps st' st'' ->
         Sys.bg st'' = Sys.BExited /\ Sys.dispatches st'' = Sys.dispatches st /\
         Sys.bg_trace st'' = Sys.bg_trace st'))
  /\ (forall nodes k, Sys.bg st = Sys.BDispatching ->
      let st' := Sys.bg_throw_dispatch nodes k st in
      Sys.step st st'
      /\ Sys.bg st' = Sys.BExited
      /\ Sys.bg_trace st' =
           Sys.bg_trace st ++ [Acquire MempoolCs] ++
           map (fun node => AddTxnsToInventory node (mNewTxns (Sys.prop st)))
               (firstn k nodes) ++
           [Release MempoolCs; Release NewTxnsMtx;
            LogPrint "Unexpected exception in new transaction thread" []]
      /\ lock_run (0, 0) (Sys.bg_trace st') = Some (0, 0)
      /\ (forall st'', Sys.steps st' st'' ->
            Sys.bg st'' = Sys.BExited /\
            Sys.dispatches st'' = Sys.dispatches st /\
            Sys.bg_trace st'' = Sys.bg_trace st')).
Proof.
  intros Hr. split.
  - intros Ht st'.
    assert (Hs : Sys.step st st') by now apply Sys.step_throw.
    assert (Hb : Sys.bg st' = Sys.BExited) by reflexivity.
    split; [exact Hs|]. split; [exact Hb|]. split; [|split].
    + unfold st', Sys.bg_throw, Sys.run, Sys.thread_exception, emit.
      destruct (Sys.bg_holds_lock (Sys.bg st)); simpl;
        [now rewrite <- app_assoc | reflexivity].
    + rewrite (SysFacts.bg_trace_locks arg st') by (eapply Sys.reach_step; eauto).
      now rewrite Hb.
    + intros st'' Hs''.
      destruct (SysFacts.exited_stable_steps st' st'' Hs'' Hb) as [Hb'' Hd''].
      split; [exact Hb''|]. split.
      * rewrite Hd''. unfold st', Sys.bg_throw.
        destruct (Sys.bg_holds_lock (Sys.bg st)); reflexivity.
      * exact (SysFacts.exited_trace_steps st' st'' Hs'' Hb).
  - intros nodes k Hd st'.
    assert (Hs : Sys.step st st') by now apply Sys.step_throw_dispatch.
    assert (Hb : Sys.bg st' = Sys.BExited) by reflexivity.
    split; [exact Hs|]. split; [exact Hb|]. split; [|split].
    + unfold st', Sys.bg_throw_dispatch, Sys.bg_throw, Sys.run,
        Sys.thread_exception, emit, emit_all, bind. simpl.
      rewrite Hd. simpl. rewrite <- !app_assoc, <- app_comm_cons, <- !app_assoc.
      reflexivity.
    + rewrite (SysFacts.bg_trace_locks arg st') by (eapply Sys.reach_step; eauto).
      now rewrite Hb.
    + intros st'' Hs''.
      destruct (SysFacts.exited_stable_steps st' st'' Hs'' Hb) as [Hb'' Hd''].
      split; [exact Hb''|]. split.
      * rewrite Hd''. unfold st', Sys.bg_throw_dispatch, Sys.bg_throw, Sys.run.
        simpl. destruct (Sys.bg_holds_lock (Sys.bg st)); reflexivity.
      * exact (SysFacts.exited_trace_steps st' st'' Hs'' Hb).
Qed.

Lemma scheduler_exception_caught_witness :
  Sys.bg sample_dispatching = Sys.BDispatching /\
  Sys.bg_trace (Sys.bg_throw_dispatch [1%N; 2%N] 1 sample_dispatching) =
    Sys.bg_trace sample_dispatching ++
    [Acquire MempoolCs;
     AddTxnsToInventory 1%N (mNewTxns (Sys.prop sample_dispatching));
     Release MempoolCs; Release NewTxnsMtx;
     LogPrint "Unexpected exception in new transaction thread" []] /\
  lock_run (0, 0)
    (Sys.bg_trace (Sys.bg_throw_dispatch [1%N; 2%N] 1 sample_dispatching))
    = Some (0, 0) /\
  Sys.bg (Sys.bg_throw sample_waiting) = Sys.BExited.
Proof.
  destruct (scheduler_exception_caught (Some 1000%N) sample_dispatching
              sample_dispatching_reachable) as [_ Hdisp].
  destruct (Hdisp [1%N; 2%N] 1 ltac:(vm_compute; reflexivity))
    as [_ [_ [Htr [Hlk _]]]].
  destruct (scheduler_exception_caught (Some 1000%N) sample_waiting
              sample_waiting_reachable) as [Hpoint _].
  destruct (Hpoint ltac:(vm_compute; reflexivity)) as [_ [Hb _]].
  split; [vm_compute; reflexivity|].
  split; [exact Htr|]. split; [exact Hlk|exact Hb].
Defined.

(** ** C9 *)

(** C9: every code path that takes both the queue lock and the mempool lock
    takes the queue lock first: the checker [lock_run] refuses taking
    [mNewTxnsMtx] while [mempool.cs] is held.  This holds for every
    operation callable from other threads (for all inputs), for
    [processNewTransactions] (entered with the queue lock held), and for the
    whole trace of the scheduler thread in every reachable state. *)
Theorem lock_order arg st :
  Sys.reachable arg st ->
  lock_run (0, 0) (Sys.bg_trace st) =
    Some (if Sys.bg_holds_lock (Sys.bg st) then 1 else 0, 0)
  /\ (forall mempool nodes txns s,
        lock_order_ok (events (removeTransactions mempool nodes txns) s) = true)
  /\ (forall nodes s,
        lock_run (1, 0) (events (processNewTransactions nodes) s) = Some (1, 0))
  /\ (forall txn s, lock_order_ok (events (newTransaction txn) s) = true)
  /\ (forall freq s, lock_order_ok (events (setRunFrequency freq) s) = true)
  /\ (forall s, lock_order_ok (events getRunFrequency s) = true /\
                lock_order_ok (events getNewTxnQueueLength s) = true)
  /\ (forall s, lock_order_ok
                  (events (with_lock NewTxnsMtx (emit NotifyOne)) s) = true).
Proof.
  intros Hr. split; [now apply SysFacts.bg_trace_locks with arg|].
  split; [|split; [|repeat split]].
  - intros mempool nodes txns s. unfold lock_order_ok.
    rewrite removeTransactions_events, !SysFacts.lock_run_app. simpl.
    rewrite SysFacts.lock_run_app, SysFacts.lock_run_remove. reflexivity.
  - intros nodes s. rewrite processNewTransactions_events,
      !SysFacts.lock_run_app. simpl.
    rewrite SysFacts.lock_run_app, SysFacts.lock_run_add. reflexivity.
Qed.

Lemma lock_order_witness :
  lock_run (0, 0)
    (firstn 6 (Sys.bg_trace (Sys.bg_next [1%N; 2%N] sample_dispatching)))
    = Some (1, 1) /\
  lock_run (0, 0) (Sys.bg_trace (Sys.bg_next [1%N; 2%N] sample_dispatching))
    = Some (0, 0) /\
  lock_order_ok (events (removeTransactions (fun _ => 0%N) [1%N; 2%N] [tx5])
                   (Sys.prop sample_dispatching)) = true /\
  lock_run (1, 0) (events (processNewTransactions [1%N; 2%N])
                     (Sys.prop sample_dispatching)) = Some (1, 0).
Proof.
  assert (Hr : Sys.reachable (Some 1000%N) (Sys.bg_next [1%N; 2%N] sample_dispatching))
    by (eapply Sys.reach_step; [apply sample_dispatching_reachable|
                                apply Sys.step_bg]).
  destruct (lock_order (Some 1000%N) _ Hr) as [Hbg [Hrem [Hproc _]]].
  split; [vm_compute; reflexivity|].
  split; [exact Hbg|]. split; [apply Hrem|apply Hproc].
Defined.

(** ** Shutdown *)

Module ShutdownFacts.
Import Sys.

Definition upd (f : nat -> CallerPC) (i : nat) (c : CallerPC) :=
  fun j => if Nat.eqb j i then c else f j.

Lemma upd_at f i c : upd f i c i = c.
Proof. unfold upd. destruct (Nat.eqb_spec i i); congruence. Qed.

Lemma upd_other f i c j : j <> i -> upd f i c j = f j.
Proof. intros H. unfold upd. apply Nat.eqb_neq in H. now rewrite H. Qed.

Lemma bg_next_keeps nodes st :
  callers (bg_next nodes st) = callers st /\
  mRunning (prop (bg_next nodes st)) = mRunning (prop st) /\
  stops (bg_next nodes st) = stops st.
Proof.
  unfold bg_next. destruct (bg st) eqn:Eb;
    unfold run, dispatch_test, loop_condition, wait_for_begin, wait_for_end,
      thread_starting, thread_stopping, processNewTransactions, bind, get,
      ret, emit, modify, with_lock, emit_all, ParallelForEachNode in *;
    SysFacts.sys_simpl; auto.
Qed.

Lemma step_classify st st' :
  step st st' ->
  (callers st' = callers st /\ mRunning (prop st') = mRunning (prop st) /\
   stops st' = stops st)
  \/ (exists i, callers st i = CIdle /\ mRunning (prop st) = true /\
        mRunning (prop st') = false /\ stops st' = stops st /\
        bg st' = bg st /\ callers st' = upd (callers st) i CWon)
  \/ (exists i, callers st i = CIdle /\ mRunning (prop st) = false /\
        mRunning (prop st') = false /\ stops st' = stops st /\
        bg st' = bg st /\ callers st' = upd (callers st) i (CDone false))
  \/ (exists i, callers st i = CWon /\ mRunning (prop st') = mRunning (prop st) /\
        stops st' = Nat.succ (stops st) /\ bg st' = notify (bg st) /\
        callers st' = upd (callers st) i CJoin)
  \/ (exists i, callers st i = CJoin /\ bg st = BExited /\
        mRunning (prop st') = mRunning (prop st) /\ stops st' = stops st /\
        bg st' = bg st /\ callers st' = upd (callers st) i (CDone true)).
Proof.
  intros Hstep. inversion Hstep; subst.
  - left. apply bg_next_keeps.
  - left. auto.
  - left. unfold bg_throw. destruct (bg_holds_lock (bg st)); simpl; auto.
  - left. unfold bg_throw_dispatch, bg_throw, run. simpl.
    destruct (bg_holds_lock (bg st)); simpl; auto.
  - left. auto.
  - left. auto.
  - left. auto.
  - unfold shutdown_cas, env_run, result, final, compare_exchange_running,
      bind, get, ret, modify.
    destruct (mRunning (prop st)) eqn:Er; simpl.
    + right; left. exists i. repeat split; auto.
    + right; right; left. exists i. repeat split; auto.
  - right; right; right; left. exists i. repeat split; auto.
  - right; right; right; right. exists i. repeat split; auto.
Qed.

(** The invariant of the shutdown protocol. *)
Definition shutdown_inv (st : System) : Prop :=
  (forall i j, won (callers st i) = true -> won (callers st j) = true -> i = j)
  /\ (mRunning (prop st) = false <-> exists i, won (callers st i) = true)
  /\ (forall i, callers st i = CDone false -> mRunning (prop st) = false)
  /\ ((stops st = 0 /\ forall i, notified (callers st i) = false) \/
      (stops st = 1 /\ exists i, notified (callers st i) = true))
  /\ (forall i, callers st i = CDone true -> bg st = BExited).

Lemma notified_won c : notified c = true -> won c = true.
Proof. destruct c as [| | |[]]; simpl; congruence. Qed.

Ltac upd_cases a i :=
  destruct (Nat.eq_dec a i) as [->|?];
  [rewrite upd_at in *|rewrite upd_other in * by assumption].

Lemma upd_true (P : CallerPC -> bool) f i c a :
  P (upd f i c a) = true -> P c = false -> a <> i /\ P (f a) = true.
Proof.
  intros Ha Hc. destruct (Nat.eq_dec a i) as [->|Na].
  - rewrite upd_at in Ha. congruence.
  - rewrite upd_other in Ha by exact Na. auto.
Qed.

Lemma upd_same (P : CallerPC -> bool) f i c :
  P c = P (f i) -> forall a, P (upd f i c a) = P (f a).
Proof.
  intros Hc a. destruct (Nat.eq_dec a i) as [->|Na].
  - now rewrite upd_at.
  - now rewrite upd_other.
Qed.

Lemma upd_done f i c a b :
  upd f i c a = CDone b -> c <> CDone b -> a <> i /\ f a = CDone b.
Proof.
  intros Ha Hc. destruct (Nat.eq_dec a i) as [->|Na].
  - rewrite upd_at in Ha. contradiction.
  - rewrite upd_other in Ha by exact Na. auto.
Qed.

Lemma shutdown_inv_reachable arg st : reachable arg st -> shutdown_inv st.
Proof.
  induction 1 as [|st st' Hr IH Hstep].
  - unfold shutdown_inv. simpl.
    split; [intros i j Hi; discriminate|].
    split; [split; [discriminate|intros [i Hi]; discriminate]|].
    split; [intros i Hi; discriminate|].
    split; [left; split; reflexivity|].
    intros i Hi; discriminate.
  - destruct IH as [Hu [Hrw [Hl [Hs Hj]]]].
    destruct (step_classify _ _ Hstep) as
      [[Ec [Er Es]]
      |[[i [Ci [R1 [R2 [Es [Eb Ec]]]]]]
      |[[i [Ci [R1 [R2 [Es [Eb Ec]]]]]]
      |[[i [Ci [Er [Es [Eb Ec]]]]]
      |[i [Ci [Hbx [Er [Es [Eb Ec]]]]]]]]]];
      unfold shutdown_inv; rewrite ?Ec, ?Er, ?R2, ?Es, ?Eb.
    + split; [exact Hu|]. split; [exact Hrw|]. split; [exact Hl|].
      split; [exact Hs|].
      intros a Ha. exact (proj1 (SysFacts.exited_stable st st' Hstep (Hj a Ha))).
    + (* the compare-and-swap succeeds *)
      assert (Hnw : forall a, won (callers st a) = false).
      { intros a. destruct (won (callers st a)) eqn:W; [|reflexivity].
        assert (mRunning (prop st) = false) by (apply Hrw; eauto). congruence. }
      split; [|split; [|split; [|split]]].
      * intros a b Ha Hb.
        destruct (Nat.eq_dec a i) as [->|Na];
          [destruct (Nat.eq_dec b i) as [->|Nb]; [reflexivity|]|].
        -- rewrite upd_other, Hnw in Hb by exact Nb. discriminate.
        -- rewrite upd_other, Hnw in Ha by exact Na. discriminate.
      * split; intros _; [exists i; now rewrite upd_at|reflexivity].
      * intros _ _. reflexivity.
      * destruct Hs as [[Hs0 Hn]|[_ [b Nb]]].
        -- left. split; [exact Hs0|]. intros a.
           destruct (Nat.eq_dec a i) as [->|Na];
             [now rewrite upd_at|rewrite upd_other by exact Na; apply Hn].
        -- apply notified_won in Nb. rewrite Hnw in Nb. discriminate.
      * intros a Ha. apply upd_done in Ha; [|discriminate]. exact (Hj a (proj2 Ha)).
    + (* the compare-and-swap fails *)
      split; [|split; [|split; [|split]]].
      * intros a b Ha Hb.
        apply (upd_true won) in Ha; [|reflexivity].
        apply (upd_true won) in Hb; [|reflexivity].
        apply Hu; tauto.
      * split; intros _; [|reflexivity].
        destruct (proj1 Hrw R1) as [b Wb]. exists b.
        assert (b <> i) by (intros ->; rewrite Ci in Wb; discriminate).
        now rewrite upd_other.
      * intros _ _. reflexivity.
      * destruct Hs as [[Hs0 Hn]|[Hs1 [b Nb]]].
        -- left. split; [exact Hs0|]. intros a.
           destruct (Nat.eq_dec a i) as [->|Na];
             [now rewrite upd_at|rewrite upd_other by exact Na; apply Hn].
        -- right. split; [exact Hs1|]. exists b.
           assert (b <> i) by (intros ->; rewrite Ci in Nb; discriminate).
           now rewrite upd_other.
      * intros a Ha. apply upd_done in Ha; [|discriminate]. exact (Hj a (proj2 Ha)).
    + (* the winner notifies *)
      assert (Hw := upd_same won (callers st) i CJoin
                      (ltac:(rewrite Ci; reflexivity))).
      split; [|split; [|split; [|split]]].
      * intros a b Ha Hb. rewrite Hw in Ha, Hb. now apply Hu.
      * split.
        -- intros H. destruct (proj1 Hrw H) as [b Wb]. exists b. now rewrite Hw.
        -- intros [b Wb]. apply Hrw. exists b. now rewrite <- Hw.
      * intros a Ha. apply upd_done in Ha; [|discriminate]. exact (Hl a (proj2 Ha)).
      * right. destruct Hs as [[Hs0 Hn]|[Hs1 [b Nb]]].
        -- split; [now rewrite Hs0|]. exists i. now rewrite upd_at.
        -- exfalso. pose proof (notified_won _ Nb) as Wb.
           assert (b = i) by (apply Hu; [exact Wb|rewrite Ci; reflexivity]).
           subst b. rewrite Ci in Nb. discriminate.
      * intros a Ha. apply upd_done in Ha; [|discriminate].
        rewrite (Hj a (proj2 Ha)). reflexivity.
    + (* the winner's join returns *)
      assert (Hw := upd_same won (callers st) i (CDone true)
                      (ltac:(rewrite Ci; reflexivity))).
      assert (Hn := upd_same notified (callers st) i (CDone true)
                      (ltac:(rewrite Ci; reflexivity))).
      split; [|split; [|split; [|split]]].
      * intros a b Ha Hb. rewrite Hw in Ha, Hb. now apply Hu.
      * split.
        -- intros H. destruct (proj1 Hrw H) as [b Wb]. exists b. now rewrite Hw.
        -- intros [b Wb]. apply Hrw. exists b. now rewrite <- Hw.
      * intros a Ha. apply upd_done in Ha; [|discriminate]. exact (Hl a (proj2 Ha)).
      * destruct Hs as [[Hs0 Hn0]|[Hs1 [b Nb]]].
        -- left. split; [exact Hs0|]. intros a. rewrite Hn. apply Hn0.
        -- right. split; [exact Hs1|]. exists b. now rewrite Hn.
      * intros _ _. exact Hbx.
Qed.

End ShutdownFacts.

(** C4 (counterexample). Not every [shutdown] call returns only after the
    thread has exited: a second caller whose compare-and-swap of [mRunning]
    fails skips the stop sequence and returns at once, here while the
    scheduler thread has not even started. *)
Lemma shutdown_loser_returns_early :
  ~ (forall arg st i b,
       Sys.reachable arg st -> Sys.callers st i = Sys.CDone b ->
       Sys.bg st = Sys.BExited).
Proof.
  intros H.
  assert (Hr : Sys.reachable None
                 (Sys.shutdown_cas 1 (Sys.shutdown_cas 0 (Sys.init None)))).
  { eapply Sys.reach_step; [eapply Sys.reach_step; [apply Sys.reach_init|]|];
      apply Sys.step_shutdown_cas; reflexivity. }
  specialize (H None _ 1 false Hr (ltac:(vm_compute; reflexivity))).
  vm_compute in H. discriminate.
Qed.

(** C4 (amended). In every interleaving of the scheduler thread with any
    number of [shutdown] callers, whether sequential or concurrent:
    - the stop sequence (notify under [mNewTxnsMtx], then join) runs at most
      once;
    - at most one caller wins the compare-and-swap of [mRunning] from true
      to false, and only the winner runs the stop sequence;
    - the winner returns only after the thread has exited;
    - once every caller that started has returned, the stop sequence has
      run exactly once;
    - a call made after the transition to false only records that it
      returned and changes nothing else.
    A losing caller returns without waiting for the thread (see
    [shutdown_loser_returns_early]). *)
Theorem shutdown_once arg st :
  Sys.reachable arg st ->
  Sys.stops st <= 1
  /\ (forall i j, won (Sys.callers st i) = true ->
        won (Sys.callers st j) = true -> i = j)
  /\ (forall i, Sys.callers st i = Sys.CDone true -> Sys.bg st = Sys.BExited)
  /\ ((exists i, Sys.callers st i <> Sys.CIdle) ->
      (forall i, Sys.callers st i = Sys.CIdle \/
                 exists b, Sys.callers st i = Sys.CDone b) ->
      Sys.stops st = 1)
  /\ (forall i, mRunning (Sys.prop st) = false ->
        Sys.callers st i = Sys.CIdle ->
        Sys.shutdown_cas i st = Sys.set_caller i (Sys.CDone false) st).
Proof.
  intros Hr.
  destruct (ShutdownFacts.shutdown_inv_reachable arg st Hr)
    as [Hu [Hrw [Hl [Hs Hj]]]].
  split; [destruct Hs as [[-> _]|[-> _]]; lia|].
  split; [exact Hu|]. split; [exact Hj|]. split.
  - intros [i Ni] Hall.
    assert (Hrun : mRunning (Sys.prop st) = false).
    { destruct (Hall i) as [Ci|[b Cb]]; [contradiction|].
      destruct b; [apply Hrw; exists i; now rewrite Cb|exact (Hl i Cb)]. }
    destruct (proj1 Hrw Hrun) as [j Wj].
    destruct Hs as [[_ Hn]|[Hs1 _]]; [|exact Hs1].
    exfalso. specialize (Hn j).
    destruct (Hall j) as [Cj|[b Cj]]; rewrite Cj in Wj, Hn; [discriminate|].
    destruct b; discriminate.
  - intros i Hrun _.
    unfold Sys.shutdown_cas, Sys.env_run, result, final,
      compare_exchange_running, bind, get. simpl.
    rewrite Hrun. simpl. destruct st; reflexivity.
Qed.

Lemma shutdown_once_witness :
  Sys.stops sample_stopped_late = 1 /\
  Sys.bg sample_stopped_late = Sys.BExited /\
  Sys.callers sample_stopped_late 1 = Sys.CDone false /\
  Sys.shutdown_cas 1 sample_stopped =
    Sys.set_caller 1 (Sys.CDone false) sample_stopped.
Proof.
  destruct (shutdown_once (Some 1000%N) _ sample_stopped_late_reachable)
    as [_ [_ [Hjoin [Hexact _]]]].
  destruct (shutdown_once (Some 1000%N) _ sample_stopped_reachable)
    as [_ [_ [_ [_ Hlate]]]].
  split; [|split; [|split]].
  - apply Hexact.
    + exists 0. vm_compute. discriminate.
    + intros [|[|i]]; vm_compute; eauto.
  - apply (Hjoin 0). vm_compute. reflexivity.
  - vm_compute. reflexivity.
  - apply Hlate; vm_compute; reflexivity.
Defined.

Lemma NoDup_map_filter {A B} (f : A -> B) (p : A -> bool) l :
  NoDup (map f l) -> NoDup (map f (filter p l)).
Proof.
  induction l as [|x l IH]; simpl; intros Hn; [constructor|].
  inversion Hn as [|? ? Hx Hl]; subst.
  destruct (p x); simpl; [|now apply IH].
  constructor; [|now apply IH].
  intros Hin. apply Hx. apply in_map_iff in Hin as [y [Ey Hy]].
  apply filter_In in Hy as [Hy _]. rewrite <- Ey. now apply in_map.
Qed.

Lemma exec_op_nodup s op :
  NoDup (map txid (mNewTxns s)) ->
  match op with
  | OpSubmit txn => ~ In (txid txn) (map txid (mNewTxns s))
  | _ => True
  end ->
  NoDup (map txid (mNewTxns (exec_op s op))).
Proof.
  intros Hn Hf. destruct op as [txn|mempool nodes txns|nodes]; cbn [exec_op].
  - change (mNewTxns (final (newTransaction txn) s)) with (mNewTxns s ++ [txn]).
    rewrite map_app. simpl.
    apply (Permutation_NoDup (Permutation_app_comm [txid txn] _)).
    simpl. now constructor.
  - rewrite removeTransactions_queue by exact Hn.
    apply NoDup_map_filter.
    apply (Permutation_NoDup (Permutation_map txid (Permutation_sym (sort_perm _ _)))).
    exact Hn.
  - rewrite processNewTransactions_final. constructor.
Qed.

Lemma fresh_submits_firstn s ops n :
  fresh_submits s ops -> fresh_submits s (firstn n ops).
Proof.
  revert s n. induction ops as [|op ops IH]; intros s n Hf.
  - now rewrite firstn_nil.
  - destruct n as [|n]; simpl; [exact I|].
    destruct Hf as [Ho Hf]. split; [exact Ho|]. now apply IH.
Qed.

Lemma exec_ops_nodup s ops :
  NoDup (map txid (mNewTxns s)) -> fresh_submits s ops ->
  NoDup (map txid (mNewTxns (exec_ops s ops))).
Proof.
  unfold exec_ops. revert s.
  induction ops as [|op ops IH]; intros s Hn Hf; simpl; [exact Hn|].
  destruct Hf as [Ho Hf]. apply IH; [|exact Hf].
  now apply exec_op_nodup.
Qed.

(** C2 (counterexample). The queue can hold two descriptors of the same
    transaction: [newTransaction] appends without looking at the queue, so
    submitting one transaction twice from a freshly constructed object
    leaves both copies pending; nothing in [newTransaction],
    [removeTransactions] or [processNewTransactions] prevents it. *)
Lemma submit_allows_duplicates :
  ~ (forall arg ops,
       NoDup (map txid (mNewTxns (exec_ops (construct arg) ops)))).
Proof.
  intros H.
  specialize (H None [OpSubmit (details_of tx5); OpSubmit (details_of tx5)]).
  vm_compute in H. inversion H as [|? ? Hx _]. apply Hx. now left.
Qed.

(** C2 (amended). If the queue starts without two descriptors of the same
    identity (as it does after construction) and every submission is of an
    identity not pending at that moment, then at every point of any
    sequence of submissions, retractions and dispatch cycles the queue has
    no two descriptors with the same identity. *)
Theorem queue_nodup_fresh_submits s ops n :
  NoDup (map txid (mNewTxns s)) -> fresh_submits s ops ->
  NoDup (map txid (mNewTxns (exec_ops s (firstn n ops)))).
Proof.
  intros Hn Hf. apply exec_ops_nodup; [exact Hn|].
  now apply fresh_submits_firstn.
Qed.

Lemma queue_nodup_fresh_submits_witness :
  NoDup (map txid (mNewTxns (construct None))) /\
  fresh_submits (construct None)
    [OpSubmit (details_of tx5); OpSubmit (details_of (mkCTransaction 7));
     OpRetract (fun _ => 0%N) [] [tx5]; OpSubmit (details_of tx5);
     OpDispatch [1%N]] /\
  NoDup (map txid (mNewTxns (exec_ops (construct None)
    (firstn 4
      [OpSubmit (details_of tx5); OpSubmit (details_of (mkCTransaction 7));
       OpRetract (fun _ => 0%N) [] [tx5]; OpSubmit (details_of tx5);
       OpDispatch [1%N]])))).
Proof.
  assert (Hn : NoDup (map txid (mNewTxns (construct None)))) by constructor.
  assert (Hf : fresh_submits (construct None)
    [OpSubmit (details_of tx5); OpSubmit (details_of (mkCTransaction 7));
     OpRetract (fun _ => 0%N) [] [tx5]; OpSubmit (details_of tx5);
     OpDispatch [1%N]]).
  { vm_compute. intuition discriminate. }
  split; [exact Hn|]. split; [exact Hf|].
  exact (queue_nodup_fresh_submits _ _ 4 Hn Hf).
Defined.

(* ------------------------------------------------------------------------ *)
(** ** Further properties of the queue operations *)

Lemma set_difference_keep mempool l1 l2 x :
  In x l1 -> (forall y, In y l2 -> txid y <> txid x) ->
  In x (set_difference (CompareTxnSendingDetails mempool) l1 l2).
Proof.
  revert l2. induction l1 as [|z l1 IH]; intros l2 Hx Hn; [destruct Hx|].
  induction l2 as [|y l2 IH2].
  - now rewrite set_difference_nil_r.
  - rewrite set_difference_cons_cons.
    destruct (CompareTxnSendingDetails mempool z y) eqn:E1;
      [|destruct (CompareTxnSendingDetails mempool y z) eqn:E2].
    + destruct Hx as [<-|Hx]; [now left|right]. now apply IH.
    + apply IH2. intros w Hw. apply Hn. now right.
    + assert (Ezy : txid z = txid y).
      { destruct (N.eq_dec (txid z) (txid y)) as [E|E]; [exact E|].
        destruct (cmp_total mempool z y E); congruence. }
      destruct Hx as [<-|Hx].
      * exfalso. apply (Hn y (or_introl eq_refl)). now symmetry.
      * apply IH; [exact Hx|]. intros w Hw. apply Hn. now right.
Qed.

Lemma set_difference_length {A} (comp : A -> A -> bool) l1 l2 :
  length l1 <= length (set_difference comp l1 l2) + length l2.
Proof.
  revert l2. induction l1 as [|x l1 IH]; intros l2; [simpl; lia|].
  induction l2 as [|y l2 IH2].
  - rewrite set_difference_nil_r. cbn [length]. lia.
  - rewrite set_difference_cons_cons.
    destruct (comp x y); [|destruct (comp y x)].
    + specialize (IH (y :: l2)). cbn [length] in *. lia.
    + cbn [length] in *. lia.
    + specialize (IH l2). cbn [length] in *. lia.
Qed.

Lemma removeTransactions_keep mempool nodes txns s d :
  In d (mNewTxns s) -> named_by txns (txid d) = false ->
  In d (mNewTxns (final (removeTransactions mempool nodes txns) s)).
Proof.
  intros Hd Hn. rewrite removeTransactions_final. cbn [mNewTxns set_mNewTxns].
  apply set_difference_keep.
  - eapply Permutation_in; [symmetry; apply sort_perm|exact Hd].
  - intros y Hy E.
    apply (Permutation_in _ (sort_perm mempool _)) in Hy.
    apply in_map_iff in Hy as [t [<- Ht]].
    unfold named_by in Hn. rewrite <- not_true_iff_false, existsb_exists in Hn.
    apply Hn. exists t. split; [exact Ht|]. apply N.eqb_eq. exact E.
Qed.

Lemma removeTransactions_incl mempool nodes txns s :
  incl (mNewTxns (final (removeTransactions mempool nodes txns) s)) (mNewTxns s).
Proof.
  rewrite removeTransactions_final. cbn [mNewTxns set_mNewTxns].
  intros d Hd. apply set_difference_incl in Hd.
  eapply Permutation_in; [apply sort_perm|exact Hd].
Qed.

Lemma Forall_filter_sub {A} (P : A -> Prop) (f : A -> bool) l :
  Forall P l -> Forall P (filter f l).
Proof.
  rewrite !Forall_forall. intros H x Hx. apply filter_In in Hx. now apply H.
Qed.

Lemma StronglySorted_filter {A} (R : A -> A -> Prop) (f : A -> bool) l :
  StronglySorted R l -> StronglySorted R (filter f l).
Proof.
  induction 1 as [|a l Hs IH Hf]; simpl; [constructor|].
  destruct (f a); [|exact IH].
  constructor; [exact IH|]. now apply Forall_filter_sub.
Qed.

Lemma strict_nodup mempool l :
  StronglySorted (before mempool) l -> NoDup (map txid l).
Proof.
  induction 1 as [|a l Hs IH Hf]; simpl; constructor; [|exact IH].
  intros Hin. apply in_map_iff in Hin as [z [Ez Hz]].
  rewrite Forall_forall in Hf.
  apply (cmp_true_id mempool a z (Hf z Hz)). now symmetry.
Qed.

Lemma sort_id mempool l :
  StronglySorted (before mempool) l ->
  sort (CompareTxnSendingDetails mempool) l = l.
Proof.
  intros Hs. apply (strongly_sorted_perm_eq mempool).
  - apply sort_strict. now apply (strict_nodup mempool).
  - exact Hs.
  - apply sort_perm.
Qed.

Lemma filter_filter_andb {A} (f g : A -> bool) l :
  filter f (filter g l) = filter (fun x => g x && f x) l.
Proof.
  induction l as [|x l IH]; simpl; [reflexivity|].
  destruct (g x); simpl; [destruct (f x)|]; simpl; now rewrite IH.
Qed.

Lemma named_by_app a b i : named_by (a ++ b) i = named_by a i || named_by b i.
Proof. apply existsb_app. Qed.

Lemma removeTransactions_nodup mempool nodes txns s :
  NoDup (map txid (mNewTxns s)) ->
  NoDup (map txid (mNewTxns (final (removeTransactions mempool nodes txns) s))).
Proof.
  intros Hn. rewrite removeTransactions_queue by exact Hn.
  apply NoDup_map_filter.
  apply (Permutation_NoDup (Permutation_map txid (Permutation_sym (sort_perm _ _)))).
  exact Hn.
Qed.

Lemma removeTransactions_then mempool nodes1 nodes2 txns1 txns2 s :
  NoDup (map txid (mNewTxns s)) ->
  mNewTxns (final (removeTransactions mempool nodes2 txns2)
              (final (removeTransactions mempool nodes1 txns1) s)) =
  filter (fun d => negb (named_by (txns1 ++ txns2) (txid d)))
    (sort (CompareTxnSendingDetails mempool) (mNewTxns s)).
Proof.
  intros Hn.
  pose proof (removeTransactions_nodup mempool nodes1 txns1 s Hn) as Hn1.
  rewrite (removeTransactions_queue _ _ _ _ Hn1).
  rewrite (removeTransactions_queue _ _ _ _ Hn).
  rewrite sort_id by (apply StronglySorted_filter, sort_strict, Hn).
  rewrite filter_filter_andb. apply filter_ext. intros d.
  rewrite named_by_app.
  now destruct (named_by txns1 (txid d)), (named_by txns2 (txid d)).
Qed.

(** Retracting with an empty list removes nothing but still re-sorts the
    queue by the comparator, and still calls [RemoveTxnsFromInventory] with
    an empty list on every node. *)
Theorem removeTransactions_empty_list mempool nodes s :
  let s' := final (removeTransactions mempool nodes []) s in
  mNewTxns s' = sort (CompareTxnSendingDetails mempool) (mNewTxns s) /\
  Permutation (mNewTxns s') (mNewTxns s) /\
  StronglySorted (not_after mempool) (mNewTxns s') /\
  node_calls (events (removeTransactions mempool nodes []) s) =
    map (fun node => RemoveTxnsFromInventory node []) nodes.
Proof.
  cbv zeta. rewrite removeTransactions_final. cbn [mNewTxns set_mNewTxns].
  change (sort (CompareTxnSendingDetails mempool) (map details_of []))
    with (@nil CTxnSendingDetails).
  rewrite set_difference_nil_r.
  split; [reflexivity|]. split; [apply sort_perm|].
  split; [apply sort_strongly_sorted|].
  rewrite removeTransactions_events, !node_calls_app.
  rewrite node_calls_map by reflexivity. simpl. now rewrite app_nil_r.
Qed.

(** Whatever the queue holds, duplicates included, a retraction never adds
    a descriptor, keeps every pending descriptor whose identity the list
    does not name, and removes at most one descriptor per entry of the
    list. *)
Theorem removeTransactions_bounds mempool nodes txns s :
  let q := mNewTxns s in
  let q' := mNewTxns (final (removeTransactions mempool nodes txns) s) in
  incl q' q /\
  (forall d, In d q -> named_by txns (txid d) = false -> In d q') /\
  length q <= length q' + length txns.
Proof.
  cbv zeta. split; [apply removeTransactions_incl|].
  split; [intros d Hd Hn; now apply removeTransactions_keep|].
  rewrite removeTransactions_final. cbn [mNewTxns set_mNewTxns].
  pose proof (set_difference_length (CompareTxnSendingDetails mempool)
    (sort (CompareTxnSendingDetails mempool) (mNewTxns s))
    (sort (CompareTxnSendingDetails mempool) (map details_of txns))) as H.
  rewrite !(Permutation_length (sort_perm _ _)), length_map in H. exact H.
Qed.

(** On a queue without two descriptors of the same identity, retracting
    [txns1] and then [txns2] leaves the same queue as retracting
    [txns1 ++ txns2] at once, and retracting a list a second time changes
    nothing. *)
Theorem removeTransactions_compose mempool nodes1 nodes2 txns1 txns2 s :
  NoDup (map txid (mNewTxns s)) ->
  mNewTxns (final (removeTransactions mempool nodes2 txns2)
              (final (removeTransactions mempool nodes1 txns1) s)) =
  mNewTxns (final (removeTransactions mempool nodes1 (txns1 ++ txns2)) s) /\
  mNewTxns (final (removeTransactions mempool nodes2 txns1)
              (final (removeTransactions mempool nodes1 txns1) s)) =
  mNewTxns (final (removeTransactions mempool nodes1 txns1) s).
Proof.
  intros Hn. split.
  - rewrite removeTransactions_then by exact Hn.
    now rewrite removeTransactions_queue by exact Hn.
  - rewrite removeTransactions_then by exact Hn.
    rewrite removeTransactions_queue by exact Hn.
    apply filter_ext. intros d. rewrite named_by_app, orb_diag. reflexivity.
Qed.

Lemma removeTransactions_compose_witness :
  NoDup (map txid [details_of tx5; details_of (mkCTransaction 7)]) /\
  mNewTxns (final (removeTransactions (fun _ => 0%N) [1%N] [tx5])
     (final (removeTransactions (fun _ => 0%N) [] [mkCTransaction 7])
        (mkCTxnPropagator true [details_of tx5; details_of (mkCTransaction 7)]
           1000))) =
  mNewTxns (final (removeTransactions (fun _ => 0%N) []
     ([mkCTransaction 7] ++ [tx5]))
        (mkCTxnPropagator true [details_of tx5; details_of (mkCTransaction 7)]
           1000)).
Proof.
  assert (Hn : NoDup (map txid [details_of tx5; details_of (mkCTransaction 7)])).
  { vm_compute. constructor; [intros [H|[]]; discriminate|].
    constructor; [intros []|constructor]. }
  split; [exact Hn|].
  exact (proj1 (removeTransactions_compose (fun _ => 0%N) [] [1%N]
    [mkCTransaction 7] [tx5]
    (mkCTxnPropagator true [details_of tx5; details_of (mkCTransaction 7)] 1000)
    Hn)).
Defined.

(* ------------------------------------------------------------------------ *)
(** ** Further properties of the scheduler and of [shutdown] *)

Module ExtraFacts.
Import Sys.

Lemma thread_move_stopped nodes st :
  mRunning (prop st) = false ->
  exit_distance (bg (thread_move nodes st)) = pred (exit_distance (bg st)) /\
  mRunning (prop (thread_move nodes st)) = false /\
  callers (thread_move nodes st) = callers st.
Proof.
  intros Hr.
  unfold thread_move, bg_next, run, loop_condition, thread_starting,
    thread_stopping, wait_for_begin, wait_for_end, dispatch_test,
    processNewTransactions, bind, get, ret, emit, modify, with_lock, emit_all,
    ParallelForEachNode, set_bg, add_dispatch.
  destruct (bg st) eqn:Eb; SysFacts.sys_simpl; rewrite ?Eb; auto;
    try congruence.
Qed.

Lemma thread_moves_stopped nodes n st :
  mRunning (prop st) = false ->
  exit_distance (bg (thread_moves nodes n st)) = exit_distance (bg st) - n /\
  mRunning (prop (thread_moves nodes n st)) = false /\
  callers (thread_moves nodes n st) = callers st /\
  steps st (thread_moves nodes n st).
Proof.
  revert st. induction n as [|n IH]; intros st Hr; simpl.
  - repeat split; [lia|exact Hr|constructor].
  - destruct (thread_move_stopped nodes st Hr) as [D [R C]].
    destruct (IH _ R) as [D' [R' [C' S']]].
    split; [rewrite D', D; lia|]. split; [exact R'|].
    split; [congruence|]. econstructor; [apply SysFacts.thread_move_step|exact S'].
Qed.

Lemma exit_distance_zero pc : exit_distance pc = 0 -> pc = BExited.
Proof. destruct pc; simpl; congruence. Qed.

Lemma exit_distance_le pc : exit_distance pc <= 6.
Proof. destruct pc; simpl; lia. Qed.

Lemma step_running_false st st' :
  step st st' -> mRunning (prop st) = false -> mRunning (prop st') = false.
Proof.
  intros Hs Hr.
  destruct (ShutdownFacts.step_classify _ _ Hs) as
    [[_ [E _]]|[[i [_ [R _]]]|[[i [_ [_ [R _]]]]|[[i [_ [E _]]]|
     [i [_ [_ [E _]]]]]]]]; congruence.
Qed.

Lemma step_won st st' j :
  step st st' -> won (callers st j) = true -> won (callers st' j) = true.
Proof.
  intros Hs Hw.
  destruct (ShutdownFacts.step_classify _ _ Hs) as
    [[E _]|[[i [Ci [_ [_ [_ [_ E]]]]]]|[[i [Ci [_ [_ [_ [_ E]]]]]]|
     [[i [Ci [_ [_ [_ E]]]]]|[i [Ci [_ [_ [_ [_ E]]]]]]]]]];
    rewrite E; [exact Hw| | | |];
    (destruct (Nat.eq_dec j i) as [->|Nj];
     [rewrite ShutdownFacts.upd_at; rewrite Ci in Hw; try discriminate;
      reflexivity
     |rewrite ShutdownFacts.upd_other by exact Nj; exact Hw]).
Qed.

Lemma step_idle_back st st' j :
  step st st' -> callers st' j = CIdle -> callers st j = CIdle.
Proof.
  intros Hs Hj.
  destruct (ShutdownFacts.step_classify _ _ Hs) as
    [[E _]|[[i [Ci [_ [_ [_ [_ E]]]]]]|[[i [Ci [_ [_ [_ [_ E]]]]]]|
     [[i [Ci [_ [_ [_ E]]]]]|[i [Ci [_ [_ [_ [_ E]]]]]]]]]];
    rewrite E in Hj; [exact Hj| | | |];
    (destruct (Nat.eq_dec j i) as [->|Nj];
     [rewrite ShutdownFacts.upd_at in Hj; discriminate
     |rewrite ShutdownFacts.upd_other in Hj by exact Nj; exact Hj]).
Qed.

Lemma step_running_cleared st st' :
  step st st' -> mRunning (prop st) = true -> mRunning (prop st') = false ->
  exists i, callers st i = CIdle /\ callers st' i = CWon.
Proof.
  intros Hs Hr Hr'.
  destruct (ShutdownFacts.step_classify _ _ Hs) as
    [[_ [E _]]|[[i [Ci [_ [_ [_ [_ E]]]]]]|[[i [_ [R _]]]|[[i [_ [E _]]]|
     [i [_ [_ [E _]]]]]]]]; try congruence.
  exists i. split; [exact Ci|]. rewrite E. apply ShutdownFacts.upd_at.
Qed.

Lemma steps_won st st' j :
  steps st st' -> won (callers st j) = true -> won (callers st' j) = true.
Proof.
  induction 1 as [|st st1 st2 H1 H2 IH]; intros Hw; [exact Hw|].
  apply IH. eapply step_won; eauto.
Qed.

Lemma bg_next_queue nodes st :
  (bg st <> BDispatching ->
   mNewTxns (prop (bg_next nodes st)) = mNewTxns (prop st)) /\
  (bg st = BDispatching ->
   mNewTxns (prop (bg_next nodes st)) = [] /\
   dispatches (bg_next nodes st) = dispatches st ++ [mNewTxns (prop st)]).
Proof.
  unfold bg_next, run, loop_condition, thread_starting,
    thread_stopping, wait_for_begin, wait_for_end, dispatch_test,
    processNewTransactions, bind, get, ret, emit, modify, with_lock, emit_all,
    ParallelForEachNode, set_bg, add_dispatch.
  destruct (bg st) eqn:Eb; SysFacts.sys_simpl;
    split; intros H; try congruence; auto.
Qed.

Lemma bg_throw_prop st : prop (bg_throw st) = prop st.
Proof.
  unfold bg_throw, run, thread_exception, emit, set_bg.
  destruct (bg_holds_lock (bg st)); reflexivity.
Qed.

Lemma bg_next_exits nodes st :
  bg st <> BExited -> bg (bg_next nodes st) = BExited ->
  bg st = BLoopHead /\ mRunning (prop st) = false.
Proof.
  unfold bg_next, run, loop_condition, thread_starting,
    thread_stopping, wait_for_begin, wait_for_end, dispatch_test,
    processNewTransactions, bind, get, ret, emit, modify, with_lock, emit_all,
    ParallelForEachNode, set_bg, add_dispatch.
  intros Hn. destruct (bg st) eqn:Eb; SysFacts.sys_simpl;
    intros H; try congruence; auto.
Qed.
End ExtraFacts.

Lemma step_queue st st' :
  Sys.step st st' ->
  mNewTxns (Sys.prop st') = mNewTxns (Sys.prop st)
  \/ (Sys.bg st = Sys.BDispatching /\ mNewTxns (Sys.prop st') = [] /\
      Sys.dispatches st' = Sys.dispatches st ++ [mNewTxns (Sys.prop st)])
  \/ (exists txn, st' = snd (Sys.env_run st (newTransaction txn)))
  \/ (exists mempool nodes txns,
        st' = snd (Sys.env_run st (removeTransactions mempool nodes txns))).
Proof.
  intros Hs. inversion Hs; subst.
  - destruct (ExtraFacts.bg_next_queue nodes st) as [Q1 Q2].
    destruct (Sys.bg st) eqn:Eb;
      try (left; apply Q1; discriminate).
    right; left. destruct (Q2 eq_refl) as [A B]. auto.
  - left. reflexivity.
  - left. now rewrite ExtraFacts.bg_throw_prop.
  - left. unfold Sys.bg_throw_dispatch. now rewrite ExtraFacts.bg_throw_prop.
  - right; right; left. eexists. reflexivity.
  - right; right; right. do 3 eexists. reflexivity.
  - left. reflexivity.
  - left. unfold Sys.shutdown_cas, Sys.env_run, result, final,
      compare_exchange_running, bind, get, ret, modify. simpl.
    destruct (mRunning (Sys.prop st)); reflexivity.
  - left. reflexivity.
  - left. reflexivity.
Qed.

Lemma bg_env_run {X} st (m : M X) : Sys.bg (snd (Sys.env_run st m)) = Sys.bg st.
Proof. reflexivity. Qed.

(** Once [mRunning] is false, the scheduler thread exits within six moves
    of its own (a [wait_for] that times out counts as one), from any
    program point: it calls no node on the way unless it was already past
    its dispatch test, and the shutdown callers are left as they were. *)
Theorem scheduler_exits_after_stop nodes st :
  mRunning (Sys.prop st) = false ->
  let st' := thread_moves nodes 6 st in
  Sys.steps st st' /\ Sys.bg st' = Sys.BExited /\
  Sys.callers st' = Sys.callers st /\ mRunning (Sys.prop st') = false /\
  (Sys.bg st <> Sys.BDispatching -> Sys.dispatches st' = Sys.dispatches st).
Proof.
  intros Hr. cbv zeta.
  destruct (ExtraFacts.thread_moves_stopped nodes 6 st Hr) as [D [R [C S']]].
  split; [exact S'|]. split.
  - apply ExtraFacts.exit_distance_zero.
    pose proof (ExtraFacts.exit_distance_le (Sys.bg st)). lia.
  - split; [exact C|]. split; [exact R|]. intros Hn.
    exact (proj1 (SysFacts.stopped_quiet_steps _ _ S' Hr Hn)).
Qed.

Lemma scheduler_exits_after_stop_witness :
  mRunning (Sys.prop (Sys.mkSystem (mkCTxnPropagator false [] 1000)
    Sys.BAcquire (fun _ => Sys.CIdle) 0 [] [])) = false /\
  Sys.bg (thread_moves [] 6 (Sys.mkSystem (mkCTxnPropagator false [] 1000)
    Sys.BAcquire (fun _ => Sys.CIdle) 0 [] [])) = Sys.BExited.
Proof.
  split; [reflexivity|].
  exact (proj1 (proj2 (scheduler_exits_after_stop []
    (Sys.mkSystem (mkCTxnPropagator false [] 1000)
       Sys.BAcquire (fun _ => Sys.CIdle) 0 [] []) eq_refl))).
Defined.

(** The [shutdown] call that won the compare-and-swap and is blocked in
    [mNewTxnsThread.join()] can always return: from any reachable state the
    thread can run to its exit and the join completes, with the other
    callers unchanged. *)
Theorem shutdown_winner_returns arg st i :
  Sys.reachable arg st -> Sys.callers st i = Sys.CJoin ->
  exists st', Sys.steps st st' /\ Sys.callers st' i = Sys.CDone true /\
    (forall j, j <> i -> Sys.callers st' j = Sys.callers st j) /\
    Sys.bg st' = Sys.BExited.
Proof.
  intros Hr Hi.
  destruct (ShutdownFacts.shutdown_inv_reachable arg st Hr) as [_ [Hrw _]].
  assert (R : mRunning (Sys.prop st) = false)
    by (apply Hrw; exists i; now rewrite Hi).
  destruct (ExtraFacts.thread_moves_stopped [] 6 st R) as [D [_ [C S']]].
  assert (B : Sys.bg (thread_moves [] 6 st) = Sys.BExited).
  { apply ExtraFacts.exit_distance_zero.
    pose proof (ExtraFacts.exit_distance_le (Sys.bg st)). lia. }
  exists (Sys.set_caller i (Sys.CDone true) (thread_moves [] 6 st)).
  split; [|split; [|split]].
  - eapply SysFacts.steps_app; [exact S'|].
    econstructor; [|constructor].
    apply Sys.step_shutdown_join; [rewrite C; exact Hi|exact B].
  - cbn [Sys.callers Sys.set_caller]. now rewrite Nat.eqb_refl.
  - intros j Nj. cbn [Sys.callers Sys.set_caller].
    apply Nat.eqb_neq in Nj. rewrite Nj. now rewrite C.
  - exact B.
Qed.

Lemma shutdown_winner_returns_witness :
  Sys.reachable None
    (Sys.shutdown_notify 0 (Sys.shutdown_cas 0 (Sys.init None))) /\
  Sys.callers (Sys.shutdown_notify 0 (Sys.shutdown_cas 0 (Sys.init None))) 0
    = Sys.CJoin /\
  exists st', Sys.steps
    (Sys.shutdown_notify 0 (Sys.shutdown_cas 0 (Sys.init None))) st' /\
    Sys.callers st' 0 = Sys.CDone true.
Proof.
  assert (Hr : Sys.reachable None
    (Sys.shutdown_notify 0 (Sys.shutdown_cas 0 (Sys.init None)))).
  { eapply Sys.reach_step;
      [eapply Sys.reach_step;
         [apply Sys.reach_init|apply Sys.step_shutdown_cas; reflexivity]|].
    apply Sys.step_shutdown_notify; vm_compute; reflexivity. }
  assert (Hc : Sys.callers
    (Sys.shutdown_notify 0 (Sys.shutdown_cas 0 (Sys.init None))) 0 = Sys.CJoin)
    by (vm_compute; reflexivity).
  split; [exact Hr|]. split; [exact Hc|].
  destruct (shutdown_winner_returns None _ 0 Hr Hc) as [st' [H1 [H2 _]]].
  exists st'. split; assumption.
Defined.

(** In every execution the running flag, once false, stays false, and it
    goes from true to false only through a [shutdown] call that was idle at
    the start and has won the compare-and-swap. *)
Theorem running_cleared_only_by_shutdown st st' :
  Sys.steps st st' ->
  (mRunning (Sys.prop st) = false -> mRunning (Sys.prop st') = false) /\
  (mRunning (Sys.prop st) = true -> mRunning (Sys.prop st') = false ->
   exists i, Sys.callers st i = Sys.CIdle /\ won (Sys.callers st' i) = true).
Proof.
  induction 1 as [|st st1 st2 H1 H2 IH].
  - split; [auto|intros; congruence].
  - destruct IH as [IH1 IH2]. split.
    + intros Hr. apply IH1. eapply ExtraFacts.step_running_false; eauto.
    + intros Hr Hr2. destruct (mRunning (Sys.prop st1)) eqn:E1.
      * destruct (IH2 eq_refl Hr2) as [i [Ci Wi]]. exists i.
        split; [eapply ExtraFacts.step_idle_back; eauto|exact Wi].
      * destruct (ExtraFacts.step_running_cleared _ _ H1 Hr E1) as [i [Ci Wi]].
        exists i. split; [exact Ci|].
        eapply ExtraFacts.steps_won; [exact H2|]. now rewrite Wi.
Qed.

Lemma running_cleared_only_by_shutdown_witness :
  Sys.steps (Sys.init None) (Sys.shutdown_cas 0 (Sys.init None)) /\
  (mRunning (Sys.prop (Sys.init None)) = true ->
   mRunning (Sys.prop (Sys.shutdown_cas 0 (Sys.init None))) = false ->
   exists i, Sys.callers (Sys.init None) i = Sys.CIdle /\
     won (Sys.callers (Sys.shutdown_cas 0 (Sys.init None)) i) = true).
Proof.
  assert (Hs : Sys.steps (Sys.init None) (Sys.shutdown_cas 0 (Sys.init None))).
  { econstructor; [apply Sys.step_shutdown_cas; reflexivity|constructor]. }
  split; [exact Hs|].
  exact (proj2 (running_cleared_only_by_shutdown _ _ Hs)).
Defined.

(** The queue changes only through its operations: a pending descriptor
    leaves it only in a dispatch cycle, which hands the whole queue to the
    nodes as one batch and empties it, or in a [removeTransactions] whose
    list names its identity; a descriptor enters it only through
    [newTransaction] of that very descriptor. *)
Theorem queue_changes_accounted st st' :
  Sys.step st st' ->
  (forall d, In d (mNewTxns (Sys.prop st)) ->
     ~ In d (mNewTxns (Sys.prop st')) ->
     (Sys.bg st = Sys.BDispatching /\ mNewTxns (Sys.prop st') = [] /\
      Sys.dispatches st' = Sys.dispatches st ++ [mNewTxns (Sys.prop st)]) \/
     (exists mempool nodes txns,
        st' = snd (Sys.env_run st (removeTransactions mempool nodes txns)) /\
        named_by txns (txid d) = true)) /\
  (forall d, In d (mNewTxns (Sys.prop st')) ->
     ~ In d (mNewTxns (Sys.prop st)) ->
     st' = snd (Sys.env_run st (newTransaction d))).
Proof.
  intros Hs.
  destruct (step_queue st st' Hs) as
    [Q|[[Eb [Q Ed]]|[[txn ->]|[mempool [nodes [txns ->]]]]]].
  - rewrite Q. split; intros d Hd Hn; contradiction.
  - rewrite Q. split; [intros d _ _; now left|intros d []].
  - change (mNewTxns (Sys.prop (snd (Sys.env_run st (newTransaction txn)))))
      with (mNewTxns (Sys.prop st) ++ [txn]).
    split.
    + intros d Hd Hn. exfalso. apply Hn. apply in_or_app. now left.
    + intros d Hd Hn. apply in_app_or in Hd as [Hd|[<-|[]]];
        [contradiction|reflexivity].
  - change (mNewTxns (Sys.prop (snd (Sys.env_run st
              (removeTransactions mempool nodes txns)))))
      with (mNewTxns (final (removeTransactions mempool nodes txns)
                        (Sys.prop st))).
    split.
    + intros d Hd Hn. right. exists mempool, nodes, txns. split; [reflexivity|].
      destruct (named_by txns (txid d)) eqn:E; [reflexivity|].
      exfalso. apply Hn. now apply removeTransactions_keep.
    + intros d Hd Hn. exfalso. apply Hn.
      exact (removeTransactions_incl _ _ _ _ _ Hd).
Qed.

Lemma queue_changes_accounted_witness :
  (In (details_of tx5) (mNewTxns (Sys.prop sample_submitted)) /\
   ~ In (details_of tx5) (mNewTxns (Sys.prop sample_retracted)) /\
   exists mempool nodes txns,
     sample_retracted =
       snd (Sys.env_run sample_submitted (removeTransactions mempool nodes txns))
     /\ named_by txns (txid (details_of tx5)) = true) /\
  (~ In (details_of tx5) (mNewTxns (Sys.prop (Sys.init (Some 1000%N)))) /\
   sample_submitted =
     snd (Sys.env_run (Sys.init (Some 1000%N)) (newTransaction (details_of tx5)))).
Proof.
  assert (Hin : In (details_of tx5) (mNewTxns (Sys.prop sample_submitted)))
    by (vm_compute; now left).
  assert (Hout : ~ In (details_of tx5) (mNewTxns (Sys.prop sample_retracted)))
    by (vm_compute; intros []).
  assert (Hs : Sys.step sample_submitted sample_retracted)
    by (apply Sys.step_removeTransactions; reflexivity).
  assert (Hs0 : Sys.step (Sys.init (Some 1000%N)) sample_submitted)
    by (apply Sys.step_newTransaction; reflexivity).
  assert (Hout0 : ~ In (details_of tx5) (mNewTxns (Sys.prop (Sys.init (Some 1000%N)))))
    by (vm_compute; intros []).
  split; (split; [assumption|]).
  - split; [exact Hout|].
    destruct (proj1 (queue_changes_accounted _ _ Hs) _ Hin Hout)
      as [[Hb _]|Hrem]; [discriminate Hb|exact Hrem].
  - exact (proj2 (queue_changes_accounted _ _ Hs0) _ Hin Hout0).
Defined.

(** The scheduler thread leaves [threadNewTxnHandler] only in two ways: at
    the loop head after reading [mRunning] false, with its stop message as
    the only event, or through an exception caught by [catch(...)], raised
    between two program points or inside the dispatch. *)
Theorem scheduler_exits_only_when_stopped st st' :
  Sys.step st st' -> Sys.bg st <> Sys.BExited -> Sys.bg st' = Sys.BExited ->
  (Sys.bg st = Sys.BLoopHead /\ mRunning (Sys.prop st) = false /\
   Sys.bg_trace st' = Sys.bg_trace st ++
     [LogPrint "New transaction handling thread stopping" []])
  \/ st' = Sys.bg_throw st
  \/ (exists nodes k, Sys.bg st = Sys.BDispatching /\
        st' = Sys.bg_throw_dispatch nodes k st).
Proof.
  intros Hs Hn Hx. inversion Hs; subst.
  - destruct (ExtraFacts.bg_next_exits nodes st Hn Hx) as [Eb R].
    left. split; [exact Eb|]. split; [exact R|].
    unfold Sys.bg_next, Sys.run, Sys.loop_condition, Sys.thread_stopping,
      bind, get, ret, emit. rewrite Eb. simpl. rewrite R. simpl.
    now rewrite !app_nil_r.
  - discriminate.
  - now right; left.
  - right; right. now exists nodes, k.
  - rewrite bg_env_run in Hx. contradiction.
  - rewrite bg_env_run in Hx. contradiction.
  - simpl in Hx. destruct (Sys.bg st); simpl in Hx; congruence.
  - exfalso. apply Hn. revert Hx.
    unfold Sys.shutdown_cas, Sys.env_run. simpl.
    destruct (result compare_exchange_running (Sys.prop st)); auto.
  - simpl in Hx. destruct (Sys.bg st); simpl in Hx; congruence.
  - contradiction.
Qed.

Lemma scheduler_exits_only_when_stopped_witness :
  Sys.step (Sys.set_prop (mkCTxnPropagator false [] 1000)
              (Sys.set_bg Sys.BLoopHead (Sys.init None)))
    (Sys.bg_next [] (Sys.set_prop (mkCTxnPropagator false [] 1000)
              (Sys.set_bg Sys.BLoopHead (Sys.init None)))) /\
  mRunning (Sys.prop (Sys.set_prop (mkCTxnPropagator false [] 1000)
              (Sys.set_bg Sys.BLoopHead (Sys.init None)))) = false.
Proof.
  assert (Hs : Sys.step (Sys.set_prop (mkCTxnPropagator false [] 1000)
              (Sys.set_bg Sys.BLoopHead (Sys.init None)))
    (Sys.bg_next [] (Sys.set_prop (mkCTxnPropagator false [] 1000)
              (Sys.set_bg Sys.BLoopHead (Sys.init None)))))
    by apply Sys.step_bg.
  split; [exact Hs|].
  destruct (scheduler_exits_only_when_stopped _ _ Hs
              (ltac:(discriminate)) (ltac:(reflexivity)))
    as [[_ [R _]]|E]; [exact R|reflexivity].
Defined.
